(** * One-way directory mirroring (sync/sync.py): model and verification

    The development embeds the comparison and synchronization functions of
    [sync.py] ([digest], [fileCmp], [dirCmp], [copyFile], [updateFile],
    [removeFile], [removeDir], [createDir], [dirSync]) over a small model of
    the filesystem calls they make, and settles the properties stated for
    them.

    Layout:
    - [MD5]   : the function computed by [hashlib.md5] (RFC 1321);
    - [Fs]    : entries of a directory tree, exceptions, and the library
                calls the program uses ([os.remove], [os.mkdir],
                [shutil.rmtree], [shutil.copy2], [open], [Path.iterdir],
                [Path.is_file], [Path.is_dir]);
    - [Run]   : the state-trace-exception monad in which the program runs;
    - [Sync]  : the functions of [sync.py];
    - the theorems.

    Scope of the filesystem model.  The source tree and the replica tree are
    two separate trees.  An entry is a regular file (with a flag telling
    whether it can be opened for reading), a directory, a symbolic link, or
    a socket.  Symbolic links point outside both trees, by absolute path,
    into a part of the filesystem that holds regular files only and that
    the program cannot write to; a link whose target is not there is
    dangling.  Inside the replica every removal and creation is permitted.
    A read either delivers the whole content or fails at [open].

    Python iterates a set in an order it does not specify: the program is
    modelled over a class [SetOrder] of iteration orders, the general
    results hold for every order, and the examples run with the order of
    [elements].

    The loop of [main] is modelled turn by turn, for runs in which nothing
    but the program changes the replica and the keyboard interrupt arrives
    while the program sleeps; argument parsing and the set-up of the
    logging handlers are outside the model. *)

From Stdlib Require Import ZArith Strings.Byte.
From stdpp Require Import gmap strings list fin_maps.

Set Warnings "-clear-no-such-hyp".

(** ** MD5, as computed by [hashlib.md5] *)

Module MD5.
Local Open Scope Z_scope.

Definition w32 (x : Z) : Z := x mod 2 ^ 32.
Definition rotl (x c : Z) : Z :=
  w32 (Z.lor (Z.shiftl x c) (Z.shiftr (w32 x) (32 - c))).
Definition not32 (x : Z) : Z := Z.lxor x 4294967295.

Definition shifts : list Z :=
  [7; 12; 17; 22; 7; 12; 17; 22; 7; 12; 17; 22; 7; 12; 17; 22;
   5; 9; 14; 20; 5; 9; 14; 20; 5; 9; 14; 20; 5; 9; 14; 20;
   4; 11; 16; 23; 4; 11; 16; 23; 4; 11; 16; 23; 4; 11; 16; 23;
   6; 10; 15; 21; 6; 10; 15; 21; 6; 10; 15; 21; 6; 10; 15; 21].

Definition sines : list Z :=
  [0xd76aa478; 0xe8c7b756; 0x242070db; 0xc1bdceee; 0xf57c0faf; 0x4787c62a;
   0xa8304613; 0xfd469501; 0x698098d8; 0x8b44f7af; 0xffff5bb1; 0x895cd7be;
   0x6b901122; 0xfd987193; 0xa679438e; 0x49b40821; 0xf61e2562; 0xc040b340;
   0x265e5a51; 0xe9b6c7aa; 0xd62f105d; 0x02441453; 0xd8a1e681; 0xe7d3fbc8;
   0x21e1cde6; 0xc33707d6; 0xf4d50d87; 0x455a14ed; 0xa9e3e905; 0xfcefa3f8;
   0x676f02d9; 0x8d2a4c8a; 0xfffa3942; 0x8771f681; 0x6d9d6122; 0xfde5380c;
   0xa4beea44; 0x4bdecfa9; 0xf6bb4b60; 0xbebfbc70; 0x289b7ec6; 0xeaa127fa;
   0xd4ef3085; 0x04881d05; 0xd9d4d039; 0xe6db99e5; 0x1fa27cf8; 0xc4ac5665;
   0xf4292244; 0x432aff97; 0xab9423a7; 0xfc93a039; 0x655b59c3; 0x8f0ccc92;
   0xffeff47d; 0x85845dd1; 0x6fa87e4f; 0xfe2ce6e0; 0xa3014314; 0x4e0811a1;
   0xf7537e82; 0xbd3af235; 0x2ad7d2bb; 0xeb86d391].

Definition nthZ (l : list Z) (i : Z) : Z := default 0 (l !! Z.to_nat i).

(** The four chaining registers. *)
Record regs := Regs { rA : Z; rB : Z; rC : Z; rD : Z }.

Definition init : regs :=
  Regs 0x67452301 0xefcdab89 0x98badcfe 0x10325476.

Definition round (m : list Z) (r : regs) (i : Z) : regs :=
  let '(Regs a b c d) := r in
  let '(f, g) :=
    if i <? 16 then (Z.lor (Z.land b c) (Z.land (not32 b) d), i)
    else if i <? 32 then
      (Z.lor (Z.land d b) (Z.land (not32 d) c), (5 * i + 1) mod 16)
    else if i <? 48 then (Z.lxor (Z.lxor b c) d, (3 * i + 5) mod 16)
    else (Z.lxor c (Z.lor b (not32 d)), (7 * i) mod 16) in
  let f' := w32 (f + a + nthZ sines i + nthZ m g) in
  Regs d (w32 (b + rotl f' (nthZ shifts i))) b c.

Definition le32 (bs : list Z) : Z :=
  foldr (fun b acc => b + 256 * acc) 0 bs.

Fixpoint words (n : nat) (bs : list Z) : list Z :=
  match n with
  | O => []
  | S n' => le32 (take 4 bs) :: words n' (drop 4 bs)
  end.

Definition block (r : regs) (bs : list Z) : regs :=
  let m := words 16 bs in
  let r' := foldl (round m) r (map Z.of_nat (seq 0 64)) in
  Regs (w32 (rA r + rA r')) (w32 (rB r + rB r'))
       (w32 (rC r + rC r')) (w32 (rD r + rD r')).

Fixpoint blocks (n : nat) (r : regs) (bs : list Z) : regs :=
  match n with
  | O => r
  | S n' => blocks n' (block r (take 64 bs)) (drop 64 bs)
  end.

Definition bytes_le (n : nat) (x : Z) : list Z :=
  map (fun i => (x / 256 ^ Z.of_nat i) mod 256) (seq 0 n).

Definition pad (bs : list Z) : list Z :=
  let len := Z.of_nat (length bs) in
  let zeros := Z.to_nat ((55 - len) mod 64) in
  bs ++ [128] ++ replicate zeros 0 ++ bytes_le 8 ((8 * len) mod 2 ^ 64).

Definition byte_of_Z (z : Z) : byte :=
  default x00 (Byte.of_N (Z.to_N (z mod 256))).
Definition Z_of_byte (b : byte) : Z := Z.of_N (Byte.to_N b).

(** [hash data] is the 16-byte MD5 digest of [data]. *)
Definition hash (data : list byte) : list byte :=
  let p := pad (map Z_of_byte data) in
  let r := blocks (length p / 64) init p in
  map byte_of_Z (bytes_le 4 (rA r) ++ bytes_le 4 (rB r) ++
                 bytes_le 4 (rC r) ++ bytes_le 4 (rD r)).

(** The object returned by [hashlib.md5()]: the bytes fed so far.
    [update] appends, [digest] hashes what was fed. *)
Definition t := list byte.
Definition new : t := [].
Definition update (h : t) (data : list byte) : t := h ++ data.
Definition digest (h : t) : list byte := hash h.
End MD5.

Definition bytes (s : string) : list byte := String.list_byte_of_string s.

#[global] Instance byte_eq_dec : EqDecision byte := Byte.byte_eq_dec.

(** ** The filesystem model *)

Module Fs.

(** Exception classes raised by the library calls the program makes. *)
Inductive exn :=
| FileNotFoundError
| FileExistsError
| IsADirectoryError
| NotADirectoryError
| PermissionError
| OSError.

#[global] Instance exn_eq_dec : EqDecision exn.
Proof. solve_decision. Defined.

(** The result of a call: a value, or a raised exception. *)
Inductive outcome (A : Type) :=
| Ret (a : A)
| Raise (e : exn).
Arguments Ret {A} a.
Arguments Raise {A} e.

#[global] Instance outcome_ret : MRet outcome := λ A a, Ret a.
#[global] Instance outcome_bind : MBind outcome := λ A B k o,
  match o with
  | Ret a => k a
  | Raise e => Raise e
  end.

#[warnings="-register-all"]
Inductive node :=
| File (readable : bool) (content : list byte)
| Dir (children : gmap string node)
| Symlink (target : string)
| Socket.

(** What a path names: an entry, or nothing. *)
Abbreviation entry := (option node).
Abbreviation dir := (gmap string node).

(** The regular files outside the two trees that symbolic links may
    point to: readable flag and content, by absolute path. *)
Definition world := string → option (bool * list byte).

(** [p / name] *)
Definition child (p : entry) (name : string) : entry :=
  match p with
  | Some (Dir c) => c !! name
  | _ => None
  end.

(** Storing what a callee left at [dst / name]. *)
Definition put (name : string) (e : entry) (c : dir) : dir :=
  match e with
  | Some n => <[name := n]> c
  | None => delete name c
  end.

Section Calls.
Context (outside : world).

(** [Path.is_file()] and [Path.is_dir()] follow symbolic links. *)
Definition is_file (n : node) : bool :=
  match n with
  | File _ _ => true
  | Symlink t => bool_decide (is_Some (outside t))
  | _ => false
  end.

Definition is_dir (n : node) : bool :=
  match n with
  | Dir _ => true
  | _ => false
  end.

(** [Path.iterdir()] *)
Definition iterdir (p : entry) : outcome dir :=
  match p with
  | None => Raise FileNotFoundError
  | Some (Dir c) => Ret c
  | Some (Symlink t) =>
      match outside t with
      | Some _ => Raise NotADirectoryError
      | None => Raise FileNotFoundError
      end
  | Some _ => Raise NotADirectoryError
  end.

(** [open(p, 'rb')] followed by reading to the end. *)
Definition open_rb (p : entry) : outcome (list byte) :=
  match p with
  | None => Raise FileNotFoundError
  | Some (File true c) => Ret c
  | Some (File false _) => Raise PermissionError
  | Some (Dir _) => Raise IsADirectoryError
  | Some (Symlink t) =>
      match outside t with
      | Some (true, c) => Ret c
      | Some (false, _) => Raise PermissionError
      | None => Raise FileNotFoundError
      end
  | Some Socket => Raise OSError
  end.

(** [open(p, 'wb')] followed by writing [data]: creates or truncates a
    regular file; a symbolic link would be written through, which the
    read-only outside refuses. *)
Definition open_wb (data : list byte) (p : entry) : outcome node :=
  match p with
  | None => Ret (File true data)
  | Some (File _ _) => Ret (File true data)
  | Some (Dir _) => Raise IsADirectoryError
  | Some (Symlink _) => Raise PermissionError
  | Some Socket => Raise OSError
  end.

(** [os.symlink(target, p)] *)
Definition os_symlink (target : string) (p : entry) : outcome node :=
  match p with
  | None => Ret (Symlink target)
  | Some _ => Raise FileExistsError
  end.

(** [shutil.copyfile(src, dst, follow_symlinks=follow)]: the entry left
    at [dst]. *)
Definition copyfile (follow : bool) (src dst : entry) : outcome node :=
  match follow, src with
  | false, Some (Symlink t) => os_symlink t dst
  | _, _ => data ← open_rb src; open_wb data dst
  end.

(** [shutil.copy2(src, dst, follow_symlinks=follow)], where [base] is
    the last component of [src]: when [dst] is a directory the copy
    goes to [dst / base]. *)
Definition copy2 (follow : bool) (src : entry) (base : string)
    (dst : entry) : outcome entry :=
  match dst with
  | Some (Dir c) =>
      n ← copyfile follow src (c !! base);
      Ret (Some (Dir (<[base := n]> c)))
  | _ => n ← copyfile follow src dst; Ret (Some n)
  end.

(** [os.remove(p)] *)
Definition os_remove (p : entry) : outcome entry :=
  match p with
  | None => Raise FileNotFoundError
  | Some (Dir _) => Raise IsADirectoryError
  | Some _ => Ret None
  end.

(** [shutil.rmtree(p)] *)
Definition rmtree (p : entry) : outcome entry :=
  match p with
  | None => Raise FileNotFoundError
  | Some (Dir _) => Ret None
  | Some (File _ _) => Raise NotADirectoryError
  | Some (Symlink t) =>
      match outside t with
      | Some _ => Raise OSError
      | None => Raise FileNotFoundError
      end
  | Some Socket => Raise OSError
  end.

(** [os.mkdir(p)] *)
Definition os_mkdir (p : entry) : outcome entry :=
  match p with
  | None => Ret (Some (Dir ∅))
  | Some _ => Raise FileExistsError
  end.

End Calls.
End Fs.

Export Fs.

(** ** The monad of the program: state, trace, exceptions *)

Module Run.

(** One record per logging call of the five apply functions. *)
Inductive kind := Created | Updated | Removed | DirCreated | DirRemoved.

#[global] Instance kind_eq_dec : EqDecision kind.
Proof. solve_decision. Defined.

(** [Done k p]: [logging.info] after the call of kind [k] on replica
    path [p] succeeded.  [Failed k p e]: [logging.error] in the handler
    of that call; the record carries the path of the failing call (the
    message the program prints names only the exception class [e]). *)
Inductive event :=
| Done (k : kind) (p : list string)
| Failed (k : kind) (p : list string) (e : exn).

#[global] Instance event_eq_dec : EqDecision event.
Proof. solve_decision. Defined.

Definition ev_kind (ev : event) : kind :=
  match ev with Done k _ | Failed k _ _ => k end.
Definition ev_path (ev : event) : list string :=
  match ev with Done _ p | Failed _ p _ => p end.

(** Records produced below [name] get [name] in front of their path. *)
Definition under (name : string) (ev : event) : event :=
  match ev with
  | Done k p => Done k (name :: p)
  | Failed k p e => Failed k (name :: p) e
  end.

(** A computation over a state [St]: the final state, the records
    logged, and how it ended.  Effects made before an exception stay. *)
Definition M (St A : Type) : Type := St → St * list event * outcome A.

#[global] Instance run_ret {St} : MRet (M St) := λ A a s, (s, [], Ret a).
#[global] Instance run_bind {St} : MBind (M St) := λ A B k m s,
  match m s with
  | (s1, l1, Ret a) =>
      let '(s2, l2, o) := k a s1 in (s2, l1 ++ l2, o)
  | (s1, l1, Raise e) => (s1, l1, Raise e)
  end.

Definition raise {St A} (e : exn) : M St A := λ s, (s, [], Raise e).

(** [try: m except: h] with a bare [except]. *)
Definition try_except {St A} (m : M St A) (h : exn → M St A) : M St A :=
  λ s,
    match m s with
    | (s1, l1, Ret a) => (s1, l1, Ret a)
    | (s1, l1, Raise e) =>
        let '(s2, l2, o) := h e s1 in (s2, l1 ++ l2, o)
    end.

Definition get {St} : M St St := λ s, (s, [], Ret s).
Definition lift {St A} (o : outcome A) : M St A := λ s, (s, [], o).

(** A library call on the entry at the current path. *)
Definition call {St} (f : St → outcome St) : M St unit :=
  λ s,
    match f s with
    | Ret s' => (s', [], Ret tt)
    | Raise e => (s, [], Raise e)
    end.

Definition log {St} (ev : event) : M St unit := λ s, (s, [ev], Ret tt).

(** [for x in xs: body x] *)
Fixpoint for_ {St A} (xs : list A) (body : A → M St unit) : M St unit :=
  match xs with
  | [] => mret tt
  | x :: xs' => body x;; for_ xs' body
  end.

(** Running [m] on [target / name], inside the directory [target]. *)
Definition at_ {A} (name : string) (m : M entry A) : M dir A :=
  λ c,
    let '(e, l, o) := m (c !! name) in
    (put name e c, under name <$> l, o).

(** Running [m] on the children of the directory at the current path.
    [dirSync] enters a path only after [dirCmp] has listed it, so the
    second case is never reached there. *)
Definition in_dir {A} (m : M dir A) : M entry A :=
  λ p,
    match p with
    | Some (Dir c) => let '(c', l, o) := m c in (Some (Dir c'), l, o)
    | _ => (p, [], Raise NotADirectoryError)
    end.

End Run.

Export Run.


(** ** The program: sync/sync.py *)

Module Sync.

(** The six sets returned by [dirCmp], in the order of the returned
    tuple. *)
Record DirDiff := {
  newFiles : gset string;
  newDirs : gset string;
  updateFiles : gset string;
  updateDirs : gset string;
  removedFiles : gset string;
  removedDir : gset string
}.

(** [bufferSize = 65536] *)
Definition bufferSize : N := 65536.

(** An open file object: the bytes not yet read.  [file.read(n)] returns
    the chunk read (at most [n] bytes) and the file object after the
    read. *)
Fixpoint read (n : N) (file : list byte) : list byte * list byte :=
  match file with
  | [] => ([], [])
  | b :: file' =>
      if (n =? 0)%N then ([], file)
      else let '(data, rest) := read (N.pred n) file' in (b :: data, rest)
  end.

(** [while data: md5.update(data); data = file.read(bufferSize)] *)
Fixpoint digest_loop (fuel : nat) (md5 : MD5.t) (data file : list byte)
    : MD5.t :=
  match fuel with
  | O => md5
  | S fuel' =>
      match data with
      | [] => md5
      | _ =>
          let md5 := MD5.update md5 data in
          let '(data, file) := read bufferSize file in
          digest_loop fuel' md5 data file
      end
  end.

(** [filterM p l]: the elements of [l] that satisfy [p], tested in order;
    an exception raised by a test ends the comprehension. *)
Fixpoint filterM (p : string → outcome bool) (l : list string)
    : outcome (list string) :=
  match l with
  | [] => Ret []
  | x :: l' =>
      b ← p x;
      r ← filterM p l';
      Ret (if b : bool then x :: r else r)
  end.

(** The order in which a [for] loop goes through a set.  Python does not
    specify it: the program is modelled for any order that visits each
    element once. *)
Class SetOrder := {
  iter : gset string → list string;
  iter_NoDup X : NoDup (iter X);
  elem_of_iter X x : x ∈ iter X ↔ x ∈ X
}.

(** One such order, used to run the program on examples. *)
#[global] Instance elements_order : SetOrder := {|
  iter := elements;
  iter_NoDup := NoDup_elements;
  elem_of_iter := λ X x, elem_of_elements X x
|}.

Section Program.
Context {order : SetOrder} (outside : world).

(** [digest(file)] *)
Definition digest (file : entry) : outcome (list byte) :=
  content ← open_rb outside file;
  let md5 := MD5.new in
  let '(data, file) := read bufferSize content in
  Ret (MD5.digest (digest_loop (S (length content)) md5 data file)).

(** [fileCmp(file1, file2)] *)
Definition fileCmp (file1 file2 : entry) : outcome bool :=
  d1 ← digest file1;
  d2 ← digest file2;
  Ret (bool_decide (d1 = d2)).

(** [{ f.relative_to(d) for f in d.iterdir() if f.is_file() }] *)
Definition files (c : dir) : gset string :=
  dom (filter (λ kv, is_file outside kv.2) c).

(** [{ f.relative_to(d) for f in d.iterdir() if f.is_dir() }] *)
Definition subdirs (c : dir) : gset string :=
  dom (filter (λ kv, is_dir kv.2) c).

(** [dirCmp(dir1, dir2)] *)
Definition dirCmp (dir1 dir2 : entry) : outcome DirDiff :=
  c1 ← iterdir outside dir1;
  c2 ← iterdir outside dir2;
  let files1 := files c1 in
  let files2 := files c2 in
  let subdirs1 := subdirs c1 in
  let subdirs2 := subdirs c2 in
  upd ← filterM
    (λ file,
       if decide (file ∈ files2)
       then same ← fileCmp (child dir1 file) (child dir2 file);
            Ret (negb same)
       else Ret false)
    (iter files1);
  Ret {| newFiles := files1 ∖ files2;
         newDirs := subdirs1 ∖ subdirs2;
         updateFiles := list_to_set upd;
         updateDirs := subdirs1 ∩ subdirs2;
         removedFiles := files2 ∖ files1;
         removedDir := subdirs2 ∖ subdirs1 |}.

(** [copyFile(source, target)], run at the path [target]; [base] is the
    last component of [source]. *)
Definition copyFile (source : entry) (base : string) : M entry unit :=
  try_except
    (call (copy2 outside false source base);;
     log (Done Created []))
    (λ e, log (Failed Created [] e)).

(** [updateFile(source, target)], run at the path [target]. *)
Definition updateFile (source : entry) (base : string) : M entry unit :=
  try_except
    (call os_remove;;
     call (copy2 outside true source base);;
     log (Done Updated []))
    (λ e, log (Failed Updated [] e)).

(** [removeFile(target)] *)
Definition removeFile : M entry unit :=
  try_except
    (call os_remove;;
     log (Done Removed []))
    (λ e, log (Failed Removed [] e)).

(** [removeDir(dir)] *)
Definition removeDir : M entry unit :=
  try_except
    (call (rmtree outside);;
     log (Done DirRemoved []))
    (λ e, log (Failed DirRemoved [] e)).

(** [createDir(dir)] *)
Definition createDir : M entry unit :=
  try_except
    (call os_mkdir;;
     log (Done DirCreated []))
    (λ e, log (Failed DirCreated [] e)).

(** The body of [dirSync(source, target)], run at the path [target];
    [self dir] stands for the recursive call
    [dirSync(source / dir, target / dir)] run at [target / dir]. *)
Definition dirSync_body (self : string → M entry unit) (source : entry)
    : M entry unit :=
  target ← get;
  d ← lift (dirCmp source target);
  in_dir (
    for_ (iter (newFiles d)) (λ file,
      at_ file (copyFile (child source file) file));;
    for_ (iter (removedFiles d)) (λ file,
      at_ file removeFile);;
    for_ (iter (updateFiles d)) (λ file,
      at_ file (updateFile (child source file) file));;
    for_ (iter (newDirs d)) (λ dir,
      at_ dir createDir;;
      at_ dir (self dir));;
    for_ (iter (removedDir d)) (λ dir,
      at_ dir removeDir);;
    for_ (iter (updateDirs d)) (λ dir,
      at_ dir (self dir))).

(** [dirSync] on a source path that names nothing: [dirCmp] raises. *)
Definition dirSync_missing : M entry unit :=
  dirSync_body (λ _, raise FileNotFoundError) None.

(** [dirSync], by recursion on the source tree. *)
Fixpoint dirSync_from (source : node) : M entry unit :=
  let below : gmap string (M entry unit) :=
    match source with
    | Dir c => dirSync_from <$> c
    | _ => ∅
    end in
  dirSync_body (λ dir, default dirSync_missing (below !! dir)) (Some source).

(** [dirSync(source, target)], run at the path [target]. *)
Definition dirSync (source : entry) : M entry unit :=
  match source with
  | Some n => dirSync_from n
  | None => dirSync_missing
  end.

End Program.
End Sync.

Export Sync.

(** ** Reading results *)

Definition final {St A} (r : St * list event * outcome A) : St := r.1.1.
Definition trace {St A} (r : St * list event * outcome A) : list event := r.1.2.
Definition result {St A} (r : St * list event * outcome A) : outcome A := r.2.

(** A world with nothing in it, and small trees for examples. *)
Definition nowhere : world := λ _, None.
Definition file (s : string) : node := File true (bytes s).
Definition tree (l : list (string * node)) : entry := Some (Dir (list_to_map l)).

(** ** Hypotheses of the convergence results, as executable checks *)

(** [all_children f c]: [f] holds of every child of the directory [c]. *)
Definition all_children (f : string → node → bool) (c : dir) : bool :=
  map_fold (λ name n acc, f name n && acc) true c.

(** [regular n]: the tree [n] consists of directories and readable regular
    files only. *)
Fixpoint regular (n : node) : bool :=
  match n with
  | File r _ => r
  | Dir c => all_children (λ _ n', regular n') c
  | Symlink _ => false
  | Socket => false
  end.

(** [no_clash s t]: no name is a regular file in the source [s] where the
    replica [t] has a directory, at the root and in every pair of
    directories present under the same name in both trees. *)
Fixpoint no_clash (s : node) (t : node) : bool :=
  match s, t with
  | Dir c1, Dir c2 =>
      all_children (λ name n1,
        match n1, c2 !! name with
        | File _ _, Some (Dir _) => false
        | Dir _, Some (Dir c2') => no_clash n1 (Dir c2')
        | _, _ => true
        end) c1
  | _, _ => true
  end.

(** The number of nodes of a tree. *)
Fixpoint size (n : node) : nat :=
  match n with
  | Dir c => S (map_fold (λ _ n' acc, size n' + acc) 0 c)
  | _ => 1
  end.

(** ** Vocabulary of the statements *)

(** [returns o]: the call returned a value. *)
Definition returns {A} (o : outcome A) : Prop :=
  match o with
  | Ret _ => True
  | Raise _ => False
  end.

#[global] Instance returns_dec {A} (o : outcome A) : Decision (returns o).
Proof. destruct o; simpl; apply _. Defined.

(** Every file present in both directories can be fingerprinted. *)
Definition comparable (outside : world) (c1 c2 : dir) : Prop :=
  set_Forall (λ name, returns (fileCmp outside (c1 !! name) (c2 !! name)))
             (files outside c1 ∩ files outside c2).

#[global] Instance comparable_dec outside c1 c2 : Decision (comparable outside c1 c2).
Proof. unfold comparable. apply _. Defined.

(** The six sets of a [DirDiff], in tuple order. *)
Definition six_sets (d : DirDiff) : list (gset string) :=
  [newFiles d; newDirs d; updateFiles d; updateDirs d; removedFiles d;
   removedDir d].

Definition pairwise_disjoint (l : list (gset string)) : Prop :=
  ∀ i j X Y, i ≠ j → l !! i = Some X → l !! j = Some Y → X ## Y.

(** The six sets partition the entries of the two directories. *)
Definition is_partition (d : DirDiff) (c1 c2 : dir) : Prop :=
  pairwise_disjoint (six_sets d) ∧ ⋃ (six_sets d) = dom c1 ∪ dom c2.

(** All six sets are empty. *)
Definition all_six_empty (d : DirDiff) : Prop :=
  Forall (λ X : gset string, X = ∅) (six_sets d).

(** [absent_or_special outside e]: the path names nothing, or an entry that
    is neither a regular file nor a directory. *)
Definition absent_or_special (outside : world) (e : entry) : bool :=
  match e with
  | None => true
  | Some n => negb (is_file outside n) && negb (is_dir n)
  end.

(** A record of kind [k] for a direct child named in [X]. *)
Definition at_level (k : kind) (X : gset string) (ev : event) : Prop :=
  ∃ x, x ∈ X ∧ ev_kind ev = k ∧ ev_path ev = [x].

(** A record for a path strictly below a direct child named in [X]. *)
Definition below (X : gset string) (ev : event) : Prop :=
  ∃ x y p, x ∈ X ∧ ev_path ev = x :: y :: p.

(** [in_phases [P1; ...; Pn] l]: the trace [l] is [n] consecutive
    segments, the records of the [i]-th all satisfying [Pi]. *)
Fixpoint in_phases (Ps : list (event → Prop)) (l : list event) : Prop :=
  match Ps with
  | [] => l = []
  | P :: Ps' => ∃ l1 l2, l = l1 ++ l2 ∧ Forall P l1 ∧ in_phases Ps' l2
  end.

(** Creations at this level come before deletions at this level. *)
Definition creations_before_deletions (l : list event) : Prop :=
  ∀ i j e1 e2,
    l !! i = Some e1 → l !! j = Some e2 →
    length (ev_path e1) = 1 → length (ev_path e2) = 1 →
    ev_kind e1 ∈ [Created; DirCreated] → ev_kind e2 ∈ [Removed; DirRemoved] →
    i < j.

(** [updateFile] either put the source content in place or left the
    replica file as it was. *)
Definition replaced_or_unchanged (outside : world) (source before after : entry)
    : Prop :=
  (∃ data, open_rb outside source = Ret data ∧ after = Some (File true data)) ∨
  after = before.

(** [mirrors s t]: the trees have the same names and kinds, and files of
    the same name have the same MD5. *)
Inductive mirrors : node → node → Prop :=
| mirrors_file c c' :
    MD5.hash c = MD5.hash c' → mirrors (File true c) (File true c')
| mirrors_dir (c1 c2 : dir) :
    dom c1 = dom c2 →
    (∀ name n1 n2, c1 !! name = Some n1 → c2 !! name = Some n2 →
                   mirrors n1 n2) →
    mirrors (Dir c1) (Dir c2).

(** Two entries of the same name mirror each other. *)
Definition entry_mirrors (e1 e2 : entry) : Prop :=
  match e1, e2 with
  | None, None => True
  | Some n1, Some n2 => mirrors n1 n2
  | _, _ => False
  end.

(** [synced outside c1 c2]: at the root and in every pair of directories of
    the same path, [dirCmp] returns, reports nothing to create, update or
    remove, and puts every source directory in [updateDirs]. *)
Inductive synced {order : SetOrder} (outside : world) : dir → dir → Prop :=
| synced_intro (c1 c2 : dir) (d : DirDiff) :
    dirCmp outside (Some (Dir c1)) (Some (Dir c2)) = Ret d →
    newFiles d = ∅ → newDirs d = ∅ → updateFiles d = ∅ →
    removedFiles d = ∅ → removedDir d = ∅ →
    updateDirs d = subdirs c1 →
    (∀ name s t, c1 !! name = Some (Dir s) → c2 !! name = Some (Dir t) →
                 synced outside s t) →
    synced outside c1 c2.

(** A second pass right after a first one does nothing. *)
Definition second_pass_idle {order : SetOrder} (outside : world) (source target : entry) : Prop :=
  let r1 := dirSync outside source target in
  let r2 := dirSync outside source (final r1) in
  trace r2 = [] ∧ final r2 = final r1.

(** ** The six loops, name by name *)

(** The six loops of [dirSync], with the two calls made on a new
    directory run as one computation at its path. *)
Definition passes {order : SetOrder} (outside : world) (self : string → M entry unit)
    (source : entry) (d : DirDiff) : M dir unit :=
  for_ (iter (newFiles d)) (λ file,
    at_ file (copyFile outside (child source file) file));;
  for_ (iter (removedFiles d)) (λ file, at_ file removeFile);;
  for_ (iter (updateFiles d)) (λ file,
    at_ file (updateFile outside (child source file) file));;
  for_ (iter (newDirs d)) (λ dir, at_ dir (createDir;; self dir));;
  for_ (iter (removedDir d)) (λ dir, at_ dir (removeDir outside));;
  for_ (iter (updateDirs d)) (λ dir, at_ dir (self dir)).

(** What the six loops do to the entry under one name: the entry each
    loop finds, given the entry [e] the pass started with. *)
Section effect.
Context (outside : world) (self : string → M entry unit) (source : entry)
        (d : DirDiff) (name : string).

Definition after_newFiles (e : entry) : entry :=
  if decide (name ∈ newFiles d)
  then final (copyFile outside (child source name) name e) else e.

Definition after_removedFiles (e : entry) : entry :=
  let e := after_newFiles e in
  if decide (name ∈ removedFiles d) then final (removeFile e) else e.

Definition after_updateFiles (e : entry) : entry :=
  let e := after_removedFiles e in
  if decide (name ∈ updateFiles d)
  then final (updateFile outside (child source name) name e) else e.

Definition after_newDirs (e : entry) : entry :=
  let e := after_updateFiles e in
  if decide (name ∈ newDirs d)
  then final ((createDir;; self name) e) else e.

Definition after_removedDir (e : entry) : entry :=
  let e := after_newDirs e in
  if decide (name ∈ removedDir d) then final (removeDir outside e) else e.

Definition after_updateDirs (e : entry) : entry :=
  let e := after_removedDir e in
  if decide (name ∈ updateDirs d) then final (self name e) else e.

End effect.

(** ** Example trees *)

(** The scenario of the specification: [a.txt] and [b/c.txt] in the
    source; a replica holding a stale file and a stale directory. *)
Definition scenario_source : dir :=
  list_to_map [("a.txt", file "hello");
               ("b", Dir (list_to_map [("c.txt", file "world")]))].
Definition scenario_replica : dir :=
  list_to_map [("a.txt", file "HELLO"); ("stale.txt", file "x");
               ("old", Dir (list_to_map [("y.txt", file "y")]))].

Definition mixed_source : dir :=
  list_to_map [("new.txt", file "n"); ("same.txt", file "s");
               ("edit.txt", file "v2"); ("sub", Dir ∅)].
Definition mixed_replica : dir :=
  list_to_map [("old.txt", file "o"); ("same.txt", file "s");
               ("edit.txt", file "v1"); ("sub", Dir ∅)].

Definition clash_source : dir :=
  list_to_map [("x", file "a"); ("y", file "b")].
Definition clash_replica : dir :=
  list_to_map [("x", Dir ∅); ("y", file "b")].

Definition unreadable_source : dir :=
  list_to_map [("a.txt", File false (bytes "secret")); ("b.txt", file "b")].
Definition unreadable_replica : dir := list_to_map [("a.txt", file "older")].

(** Outside the trees: two versions of a file that links point to. *)
Definition versions : world :=
  λ t, if decide (t = "/data/v1") then Some (true, bytes "old")
       else if decide (t = "/data/v2") then Some (true, bytes "new")
       else None.
Definition link_source : dir := list_to_map [("current", Symlink "/data/v2")].
Definition link_replica : dir := list_to_map [("current", Symlink "/data/v1")].

Definition special_source : dir := list_to_map [("a.txt", file "a")].
Definition special_replica : dir :=
  list_to_map [("sock", Socket); ("dangling", Symlink "/gone");
               ("old.txt", file "o")].

(** A source directory and a source file, over a replica that holds a
    socket under the name of the directory. *)
Definition blocked_source : dir := list_to_map [("x", Dir ∅); ("z", file "z")].
Definition blocked_replica : dir := list_to_map [("x", Socket)].

(** ** Vocabulary of the further results *)

(** No record of the trace is for a path through [name]. *)
Definition unlogged (name : string) (l : list event) : Prop :=
  Forall (λ ev, head (ev_path ev) ≠ Some name) l.

(** The records for direct children, in trace order: which call, on which
    name. *)
Definition at_this_level (l : list event) : list (kind * string) :=
  omap (λ ev, match ev_path ev with
              | [x] => Some (ev_kind ev, x)
              | _ => None
              end) l.

(** One call of kind [k] for each name, in order. *)
Definition planned (k : kind) (names : list string) : list (kind * string) :=
  (λ x, (k, x)) <$> names.

(** What a first pass leaves under a name where the source has [e1]:
    nothing, or a tree of directories and readable files that is not a
    directory where [e1] is a file. *)
Definition cleared (e1 e : entry) : Prop :=
  match e with
  | None => True
  | Some n =>
      regular n = true ∧
      match e1, n with
      | Some (File _ _), Dir _ => False
      | Some (Dir s), Dir t => no_clash (Dir s) (Dir t) = true
      | _, _ => True
      end
  end.

(** ** The loop of [main] *)

(** The records of [main]'s own logging calls, and those of the passes:
    'Starting process', "Starting sync", "Sync ended", 'Stopping process',
    and a record of one of the five apply functions. *)
Inductive record :=
| Process_starting
| Sync_starting
| Sync_ended
| Process_stopping
| Pass (ev : event).

(** One turn of the [while] loop up to the call of [time.sleep]:
    [logging.info("Starting sync")], the pass, and
    [logging.info("Sync ended")] when the pass returned. *)
Definition turn {order : SetOrder} (outside : world) (source target : entry)
    : entry * list record * outcome unit :=
  let '(target', l, o) := dirSync outside source target in
  (target',
   [Sync_starting] ++ (Pass <$> l) ++
     match o with Ret _ => [Sync_ended] | Raise _ => [] end,
   o).

(** The turns of the loop, one for each tree of [sources]: what
    [args.source] names when the turn starts.  [args.replica] names what
    the turn before left.  An exception ends the loop. *)
Fixpoint turns {order : SetOrder} (outside : world) (sources : list entry)
    (target : entry) : entry * list record * outcome unit :=
  match sources with
  | [] => (target, [], Ret tt)
  | source :: later =>
      match turn outside source target with
      | (target', l, Ret _) =>
          let '(target'', l', o) := turns outside later target' in
          (target'', l ++ l', o)
      | (target', l, Raise e) => (target', l, Raise e)
      end
  end.

(** [main] after [parseArguments], for a keyboard interrupt that arrives
    during the sleep after the last of the turns: the handler logs the
    stop and [main] returns.  Any other exception leaves [main]. *)
Definition main {order : SetOrder} (outside : world) (sources : list entry)
    (replica : entry) : entry * list record * outcome unit :=
  let '(replica', l, o) := turns outside sources replica in
  (replica',
   [Process_starting] ++ l ++
     match o with Ret _ => [Process_stopping] | Raise _ => [] end,
   o).

(** ** MD5: the RFC 1321 test suite *)

Example md5_empty :
  map MD5.Z_of_byte (MD5.hash (bytes "")) =
  [0xd4; 0x1d; 0x8c; 0xd9; 0x8f; 0x00; 0xb2; 0x04;
   0xe9; 0x80; 0x09; 0x98; 0xec; 0xf8; 0x42; 0x7e]%Z.
Proof. vm_compute. reflexivity. Qed.

Example md5_abc :
  map MD5.Z_of_byte (MD5.hash (bytes "abc")) =
  [0x90; 0x01; 0x50; 0x98; 0x3c; 0xd2; 0x4f; 0xb0;
   0xd6; 0x96; 0x3f; 0x7d; 0x28; 0xe1; 0x7f; 0x72]%Z.
Proof. vm_compute. reflexivity. Qed.

Example md5_two_blocks :
  map MD5.Z_of_byte (MD5.hash (bytes
    "12345678901234567890123456789012345678901234567890123456789012345678901234567890")) =
  [0x57; 0xed; 0xf4; 0xa2; 0x2b; 0xe3; 0xc9; 0x55;
   0xac; 0x49; 0xda; 0x2e; 0x21; 0x07; 0xb6; 0x7a]%Z.
Proof. vm_compute. reflexivity. Qed.

(** ** Trees: induction and the executable checks *)

Lemma all_children_spec (f : string → node → bool) (c : dir) :
  all_children f c = true ↔ ∀ name n, c !! name = Some n → f name n = true.
Proof.
  unfold all_children.
  apply (map_fold_weak_ind
           (λ r (m : dir), r = true ↔ ∀ name n, m !! name = Some n → f name n = true)).
  - split; [intros _ name n H; by rewrite lookup_empty in H | done].
  - intros i x m r Hi IH. rewrite andb_true_iff, IH. split.
    + intros [Hx Hm] name n. rewrite lookup_insert.
      case_decide; [intros [= <-]; by subst | apply Hm].
    + intros H. split.
      * apply (H i). by rewrite lookup_insert_eq.
      * intros name n Hn. apply (H name).
        rewrite lookup_insert_ne; [done | intros ->; congruence].
Qed.

Lemma size_child (c : dir) (name : string) (n : node) :
  c !! name = Some n → size n < size (Dir c).
Proof.
  simpl. revert name n.
  apply (map_fold_weak_ind
           (λ r (m : dir), ∀ name n, m !! name = Some n → size n < S r)).
  - intros name n H. by rewrite lookup_empty in H.
  - intros i x m r Hi IH name n. rewrite lookup_insert.
    case_decide.
    + intros [= <-]. lia.
    + intros H'. specialize (IH _ _ H'). lia.
Qed.

(** Induction on trees: a property of every child passes to the
    directory. *)
Lemma node_tree_ind (P : node → Prop) :
  (∀ r c, P (File r c)) →
  (∀ c : dir, (∀ name n, c !! name = Some n → P n) → P (Dir c)) →
  (∀ t, P (Symlink t)) →
  P Socket →
  ∀ n, P n.
Proof.
  intros HF HD HL HS n.
  remember (size n) as k eqn:Hk. revert n Hk.
  induction k as [k IH] using lt_wf_ind. intros n ->.
  destruct n as [r c | c | t |]; auto.
  apply HD. intros name n Hn.
  apply (IH (size n)); [by eapply size_child | done].
Qed.

Lemma regular_child (c : dir) (name : string) (n : node) :
  regular (Dir c) = true → c !! name = Some n → regular n = true.
Proof. simpl. rewrite all_children_spec. eauto. Qed.

Lemma regular_cases (n : node) :
  regular n = true → (∃ c, n = File true c) ∨ (∃ c, n = Dir c).
Proof. destruct n as [[] ?| | |]; simpl; intros; try done; eauto. Qed.

(** ** The content comparator *)

Lemma read_spec (n : N) (file : list byte) :
  (read n file).1 ++ (read n file).2 = file ∧
  ((0 < n)%N → (read n file).1 = [] → file = []).
Proof.
  revert n. induction file as [|b file IH]; intros n; simpl; [done|].
  destruct (N.eqb_spec n 0) as [->|Hn]; simpl; [split; [done | lia]|].
  destruct (IH (N.pred n)) as [IH1 _].
  destruct (read (N.pred n) file) as [data rest]; simpl in *.
  split; [by rewrite IH1 | done].
Qed.

(** The read loop feeds every byte of the file, in order, whatever the
    chunk boundaries: it stops on the empty chunk, never on the fuel. *)
Lemma digest_loop_feeds_all (fuel : nat) (md5 : MD5.t) (data file : list byte) :
  length data + length file < fuel →
  (data = [] → file = []) →
  digest_loop fuel md5 data file = md5 ++ data ++ file.
Proof.
  revert md5 data file.
  induction fuel as [|fuel IH]; intros md5 data file Hlen Heof; [lia|].
  destruct data as [|b data].
  - rewrite Heof by done. cbn [digest_loop]. by rewrite !app_nil_r.
  - cbn [digest_loop].
    destruct (read_spec bufferSize file) as [Happ Hnil].
    destruct (read bufferSize file) as [data' file']; simpl in Happ, Hnil.
    rewrite IH.
    + unfold MD5.update. by rewrite <- Happ, <- !app_assoc.
    + rewrite <- Happ, length_app in Hlen. simpl in Hlen. lia.
    + intros ->. rewrite Hnil in Happ by done. by destruct file'.
Qed.

(** [digest] returns the MD5 of the whole content as one stream. *)
Lemma digest_whole_stream (outside : world) (p : entry) :
  digest outside p = content ← open_rb outside p; Ret (MD5.hash content).
Proof.
  unfold digest. destruct (open_rb outside p) as [content|e]; [|done].
  cbn [mbind outcome_bind].
  destruct (read_spec bufferSize content) as [Happ Hnil].
  destruct (read bufferSize content) as [data file]; simpl in Happ, Hnil.
  f_equal. unfold MD5.digest, MD5.new.
  rewrite digest_loop_feeds_all.
  - by rewrite Happ.
  - rewrite <- Happ, length_app. lia.
  - intros ->. rewrite Hnil in Happ by done. by destruct file.
Qed.

Lemma fileCmp_spec (outside : world) (p1 p2 : entry) :
  fileCmp outside p1 p2 =
    c1 ← open_rb outside p1;
    c2 ← open_rb outside p2;
    Ret (bool_decide (MD5.hash c1 = MD5.hash c2)).
Proof.
  unfold fileCmp. rewrite !digest_whole_stream.
  destruct (open_rb outside p1); [|done].
  by destruct (open_rb outside p2).
Qed.

(** Two readable files compare unequal exactly when their MD5 digests
    differ. *)
Lemma fileCmp_false_iff (outside : world) (p1 p2 : entry) (c1 c2 : list byte) :
  open_rb outside p1 = Ret c1 → open_rb outside p2 = Ret c2 →
  fileCmp outside p1 p2 = Ret false ↔ MD5.hash c1 ≠ MD5.hash c2.
Proof.
  intros H1 H2. rewrite fileCmp_spec, H1, H2. cbn. split.
  - intros [= H]. by apply bool_decide_eq_false in H.
  - intros H. by rewrite bool_decide_eq_false_2.
Qed.

(** Two readable files with the same bytes compare equal. *)
Lemma fileCmp_same_content (outside : world) (p1 p2 : entry) (c : list byte) :
  open_rb outside p1 = Ret c → open_rb outside p2 = Ret c →
  fileCmp outside p1 p2 = Ret true.
Proof.
  intros H1 H2. rewrite fileCmp_spec, H1, H2. cbn.
  by rewrite bool_decide_eq_true_2.
Qed.

(** ** The sets computed by [dirCmp] *)

Lemma elem_of_files (outside : world) (c : dir) (name : string) :
  name ∈ files outside c ↔
  ∃ n, c !! name = Some n ∧ is_file outside n = true.
Proof.
  unfold files. rewrite elem_of_dom. unfold is_Some.
  setoid_rewrite map_lookup_filter_Some. simpl.
  split; intros (n & H1 & H2); exists n; split; try done.
  - by apply Is_true_true.
  - by apply Is_true_true.
Qed.

Lemma elem_of_subdirs (c : dir) (name : string) :
  name ∈ subdirs c ↔ ∃ c', c !! name = Some (Dir c').
Proof.
  unfold subdirs. rewrite elem_of_dom. unfold is_Some.
  setoid_rewrite map_lookup_filter_Some. simpl. split.
  - intros (n & H1 & H2). destruct n; try done. eauto.
  - intros (c' & H). exists (Dir c'). done.
Qed.

Lemma filterM_Ret_inv (p : string → outcome bool) (l r : list string) :
  filterM p l = Ret r →
  (∀ x, x ∈ l → ∃ b, p x = Ret b) ∧
  (∀ x, x ∈ r ↔ x ∈ l ∧ p x = Ret true).
Proof.
  revert r. induction l as [|y l IH]; intros r; simpl.
  - intros [= <-]. split; [by intros x ?%elem_of_nil|].
    intros x. split; [by intros ?%elem_of_nil | by intros [?%elem_of_nil _]].
  - destruct (p y) as [b|e] eqn:Hy; [|done]. cbn.
    destruct (filterM p l) as [r'|e] eqn:Hl; [|done]. cbn.
    intros [= <-]. destruct (IH r' eq_refl) as [IH1 IH2]. split.
    + intros x [->|Hx]%elem_of_cons; eauto.
    + intros x. rewrite elem_of_cons.
      destruct b; rewrite ?elem_of_cons, IH2; split.
      * intros [->|[? ?]]; eauto.
      * intros [[->|?] ?]; eauto.
      * intros [? ?]; eauto.
      * intros [[->|?] ?]; [congruence | eauto].
Qed.

Lemma filterM_returns (p : string → outcome bool) (l : list string) :
  (∀ x, x ∈ l → ∃ b, p x = Ret b) → ∃ r, filterM p l = Ret r.
Proof.
  induction l as [|y l IH]; intros H; simpl; [eauto|].
  destruct (H y) as [b ->]; [by left|]. cbn.
  destruct IH as [r ->]; [intros x Hx; apply H; by right|]. cbn. eauto.
Qed.

Lemma filterM_Raise_inv (p : string → outcome bool) (l : list string) (e : exn) :
  filterM p l = Raise e → ∃ x, x ∈ l ∧ p x = Raise e.
Proof.
  induction l as [|y l IH]; simpl; [done|].
  destruct (p y) as [b|e'] eqn:Hy; cbn.
  - destruct (filterM p l) as [r'|e'] eqn:Hl; cbn; [done|].
    intros [= ->]. destruct IH as (x & ? & ?); [done|].
    exists x. split; [by right | done].
  - intros [= ->]. exists y. split; [by left | done].
Qed.

(** What [dirCmp] returns, set by set. *)
Lemma dirCmp_Ret_inv {order : SetOrder} (outside : world) (dir1 dir2 : entry) (d : DirDiff) :
  dirCmp outside dir1 dir2 = Ret d →
  ∃ c1 c2,
    dir1 = Some (Dir c1) ∧ dir2 = Some (Dir c2) ∧
    newFiles d = files outside c1 ∖ files outside c2 ∧
    newDirs d = subdirs c1 ∖ subdirs c2 ∧
    updateDirs d = subdirs c1 ∩ subdirs c2 ∧
    removedFiles d = files outside c2 ∖ files outside c1 ∧
    removedDir d = subdirs c2 ∖ subdirs c1 ∧
    (∀ name, name ∈ updateFiles d ↔
       name ∈ files outside c1 ∧ name ∈ files outside c2 ∧
       fileCmp outside (c1 !! name) (c2 !! name) = Ret false) ∧
    (∀ name, name ∈ files outside c1 → name ∈ files outside c2 →
       ∃ b, fileCmp outside (c1 !! name) (c2 !! name) = Ret b).
Proof.
  unfold dirCmp. intros H.
  destruct (iterdir outside dir1) as [c1|] eqn:H1; [|done].
  destruct (iterdir outside dir2) as [c2|] eqn:H2; [|done].
  assert (dir1 = Some (Dir c1)) as ->.
  { destruct dir1 as [[]|]; simpl in H1; try done; [congruence|].
    by destruct (outside _). }
  assert (dir2 = Some (Dir c2)) as ->.
  { destruct dir2 as [[]|]; simpl in H2; try done; [congruence|].
    by destruct (outside _). }
  cbn [mbind outcome_bind] in H.
  match type of H with
  | context [filterM ?p ?l] => destruct (filterM p l) as [upd|] eqn:Hupd
  end; [|done].
  cbn in H. injection H as <-. simpl.
  apply filterM_Ret_inv in Hupd as [Hret Hmem].
  exists c1, c2. split_and!; try done.
  - intros name. rewrite elem_of_list_to_set, Hmem, elem_of_iter.
    case_decide.
    + destruct (fileCmp _ _ _) as [[]|]; cbn; intuition congruence.
    + intuition congruence.
  - intros name Hf1 Hf2.
    destruct (Hret name) as [b Hb]; [by apply elem_of_iter|].
    rewrite decide_True in Hb by done.
    destruct (fileCmp _ _ _) as [b'|]; [eauto | done].
Qed.

(** [dirCmp] returns as soon as both paths are directories and every
    file present in both can be fingerprinted. *)
Lemma dirCmp_returns {order : SetOrder} (outside : world) (c1 c2 : dir) :
  (∀ name, name ∈ files outside c1 → name ∈ files outside c2 →
     ∃ b, fileCmp outside (c1 !! name) (c2 !! name) = Ret b) →
  ∃ d, dirCmp outside (Some (Dir c1)) (Some (Dir c2)) = Ret d.
Proof.
  intros H. unfold dirCmp. cbn [iterdir mbind outcome_bind].
  match goal with
  | |- context [filterM ?p ?l] => destruct (filterM_returns p l) as [upd ->]
  end; [|cbn; eauto].
  intros name Hname%elem_of_iter. case_decide; [|eauto]. simpl.
  destruct (H name) as [b ->]; [done..|]. cbn. eauto.
Qed.

(** A failure of [dirCmp] on two directories is a failure to fingerprint
    a file present in both. *)
Lemma dirCmp_Raise_inv {order : SetOrder} (outside : world) (c1 c2 : dir) (e : exn) :
  dirCmp outside (Some (Dir c1)) (Some (Dir c2)) = Raise e →
  ∃ name, name ∈ files outside c1 ∧ name ∈ files outside c2 ∧
          fileCmp outside (c1 !! name) (c2 !! name) = Raise e.
Proof.
  unfold dirCmp. cbn [iterdir mbind outcome_bind].
  match goal with
  | |- context [filterM ?p ?l] => destruct (filterM p l) as [upd|e'] eqn:Hupd
  end; [done|].
  cbn. intros [= ->]. apply filterM_Raise_inv in Hupd as (name & Hin & Hp).
  apply elem_of_iter in Hin. exists name. case_decide; [|done].
  simpl in Hp. destruct (fileCmp _ _ _) as [|e'] eqn:Hc; [done|].
  cbn in Hp. by injection Hp as ->.
Qed.

Lemma files_subdirs_disjoint (outside : world) (c : dir) :
  files outside c ## subdirs c.
Proof.
  intros name (n & Hn & Hf)%elem_of_files (c' & Hc)%elem_of_subdirs.
  rewrite Hn in Hc. by injection Hc as ->.
Qed.

Lemma files_dom (outside : world) (c : dir) : files outside c ⊆ dom c.
Proof.
  intros name (n & Hn & _)%elem_of_files. apply elem_of_dom. eauto.
Qed.

Lemma subdirs_dom (c : dir) : subdirs c ⊆ dom c.
Proof. intros name (n & Hn)%elem_of_subdirs. apply elem_of_dom. eauto. Qed.

Lemma comparable_returns {order : SetOrder} (outside : world) (c1 c2 : dir) :
  comparable outside c1 c2 →
  ∃ d, dirCmp outside (Some (Dir c1)) (Some (Dir c2)) = Ret d.
Proof.
  intros H. apply dirCmp_returns. intros name H1 H2.
  specialize (H name). rewrite elem_of_intersection in H.
  destruct (fileCmp _ _ _); [eauto | by destruct H].
Qed.

(** ** The classification rule of [dirCmp] *)



(** ** Overlap and coverage of the six sets *)



Lemma clash_diff :
  dirCmp nowhere (Some (Dir clash_source)) (Some (Dir clash_replica)) =
  Ret {| newFiles := {["x"]}; newDirs := ∅; updateFiles := ∅;
         updateDirs := ∅; removedFiles := ∅; removedDir := {["x"]} |}.
Proof. vm_compute. reflexivity. Qed.


(** ** Running computations *)

Section run_lemmas.
Context {St : Type}.
Implicit Types (s : St).

Lemma bind_run {A B} (m : M St A) (k : A → M St B) s :
  (m ≫= k) s =
  match m s with
  | (s1, l1, Ret a) => let '(s2, l2, o) := k a s1 in (s2, l1 ++ l2, o)
  | (s1, l1, Raise e) => (s1, l1, Raise e)
  end.
Proof. reflexivity. Qed.

Lemma bind_ext {A B} (m1 m2 : M St A) (k1 k2 : A → M St B) :
  (∀ s, m1 s = m2 s) → (∀ a s, k1 a s = k2 a s) →
  ∀ s, (m1 ≫= k1) s = (m2 ≫= k2) s.
Proof.
  intros Hm Hk s. rewrite !bind_run, Hm.
  destruct (m2 s) as [[s1 l1] [a|e]]; [|done]. by rewrite Hk.
Qed.

Lemma for_ext {A} (xs : list A) (b1 b2 : A → M St unit) :
  (∀ x s, b1 x s = b2 x s) → ∀ s, for_ xs b1 s = for_ xs b2 s.
Proof.
  intros Hb. induction xs as [|x xs IH]; intros s; [done|].
  cbn [for_]. apply bind_ext; [apply Hb | intros _; apply IH].
Qed.

(** Whatever a sequence logs is logged by one of its two parts. *)
Lemma bind_trace_Forall {A B} (P : event → Prop) (m : M St A) (k : A → M St B) s :
  Forall P (trace (m s)) →
  (∀ a s', Forall P (trace (k a s'))) →
  Forall P (trace ((m ≫= k) s)).
Proof.
  intros Hm Hk. rewrite bind_run.
  destruct (m s) as [[s1 l1] [a|e]]; [|done].
  specialize (Hk a s1). destruct (k a s1) as [[s2 l2] o].
  unfold trace in *; simpl in *. by apply Forall_app.
Qed.

Lemma for_trace_Forall {A} (P : event → Prop) (xs : list A) (b : A → M St unit) :
  (∀ x s, x ∈ xs → Forall P (trace (b x s))) →
  ∀ s, Forall P (trace (for_ xs b s)).
Proof.
  induction xs as [|x xs IH]; intros Hb s; [by constructor|].
  cbn [for_]. apply bind_trace_Forall.
  - apply Hb. by left.
  - intros _ s'. apply IH. intros y s'' Hy. apply Hb. by right.
Qed.

Lemma try_except_run {A} (m : M St A) (h : exn → M St A) s :
  try_except m h s =
  match m s with
  | (s1, l1, Ret a) => (s1, l1, Ret a)
  | (s1, l1, Raise e) => let '(s2, l2, o) := h e s1 in (s2, l1 ++ l2, o)
  end.
Proof. reflexivity. Qed.

End run_lemmas.

(** ** Paths below a directory *)

Lemma lookup_put (name name' : string) (e : entry) (c : dir) :
  put name e c !! name' = if decide (name = name') then e else c !! name'.
Proof.
  unfold put. destruct e.
  - apply lookup_insert.
  - rewrite lookup_delete. by case_decide.
Qed.

Lemma put_put (name : string) (e1 e2 : entry) (c : dir) :
  put name e2 (put name e1 c) = put name e2 c.
Proof.
  apply map_eq. intros name'. rewrite !lookup_put. by case_decide.
Qed.

Lemma put_lookup (name : string) (c : dir) : put name (c !! name) c = c.
Proof.
  apply map_eq. intros name'. rewrite lookup_put. case_decide; by subst.
Qed.

Lemma at_run {A} (name : string) (m : M entry A) (c : dir) :
  at_ name m c =
  (put name (final (m (c !! name))) c,
   under name <$> trace (m (c !! name)),
   result (m (c !! name))).
Proof. unfold at_. by destruct (m (c !! name)) as [[e l] o]. Qed.

Lemma at_ext {A} (name : string) (m1 m2 : M entry A) :
  (∀ t, m1 t = m2 t) → ∀ c, at_ name m1 c = at_ name m2 c.
Proof. intros H c. by rewrite !at_run, H. Qed.

(** Two calls on the same path run as one computation there. *)
Lemma at_bind {A B} (name : string) (m : M entry A) (k : A → M entry B) (c : dir) :
  (at_ name m ≫= λ a, at_ name (k a)) c = at_ name (m ≫= k) c.
Proof.
  rewrite bind_run, !at_run, bind_run.
  destruct (m (c !! name)) as [[e l] [a|x]]; unfold final, trace, result; simpl.
  - rewrite at_run, lookup_put, decide_True by done.
    destruct (k a e) as [[e' l'] o]; unfold final, trace, result; simpl.
    by rewrite put_put, fmap_app.
  - done.
Qed.

(** A loop over names leaves every other name of the directory as it
    was, however its body ends. *)
Lemma for_at_frame (xs : list string) (m : string → M entry unit)
    (c : dir) (name : string) :
  name ∉ xs →
  final (for_ xs (λ x, at_ x (m x)) c) !! name = c !! name.
Proof.
  revert c. induction xs as [|x xs IH]; intros c Hn; [done|].
  apply not_elem_of_cons in Hn as [Hx Hn].
  cbn [for_]. rewrite bind_run, at_run.
  destruct (result (m x (c !! x))) as [[]|e].
  - specialize (IH (put x (final (m x (c !! x))) c) Hn).
    destruct (for_ xs _ _) as [[c' l'] o]. unfold final in *; simpl in *.
    rewrite IH, lookup_put. by rewrite decide_False by done.
  - unfold final; simpl. rewrite lookup_put. by rewrite decide_False by done.
Qed.

(** A loop over distinct names whose calls all return runs each call on
    the entry the directory had at the start. *)
Lemma for_at_spec (xs : list string) (m : string → M entry unit) (c : dir) :
  NoDup xs →
  (∀ x, x ∈ xs → result (m x (c !! x)) = Ret tt) →
  result (for_ xs (λ x, at_ x (m x)) c) = Ret tt ∧
  trace (for_ xs (λ x, at_ x (m x)) c) =
    mjoin ((λ x, under x <$> trace (m x (c !! x))) <$> xs) ∧
  ∀ name,
    final (for_ xs (λ x, at_ x (m x)) c) !! name =
    if decide (name ∈ xs) then final (m name (c !! name)) else c !! name.
Proof.
  revert c. induction xs as [|x xs IH]; intros c Hnd Hret.
  - split_and!; done.
  - apply NoDup_cons in Hnd as [Hx Hnd].
    cbn [for_]. rewrite bind_run, at_run.
    rewrite (Hret x) by (by left).
    set (c1 := put x (final (m x (c !! x))) c).
    assert (Hsame : ∀ y, y ∈ xs → c1 !! y = c !! y).
    { intros y Hy. unfold c1. rewrite lookup_put, decide_False; [done|].
      intros ->. done. }
    destruct (IH c1 Hnd) as (IH1 & IH2 & IH3).
    { intros y Hy. rewrite Hsame by done. apply Hret. by right. }
    destruct (for_ xs _ c1) as [[c' l'] o]. unfold final, trace, result in *.
    simpl in *. subst o l'. split_and!; [done| |].
    + f_equal. f_equal. apply list_fmap_ext. intros _ y Hy%list_elem_of_lookup_2.
      by rewrite Hsame.
    + intros name. rewrite IH3. destruct (decide (name ∈ xs)) as [Hin|Hin].
      * rewrite decide_True by (by right). by rewrite Hsame.
      * unfold c1. rewrite lookup_put. case_decide as Hd.
        -- subst. by rewrite decide_True by (by left).
        -- rewrite decide_False; [done|]. intros [->|?]%elem_of_cons; done.
Qed.

Lemma in_dir_run {A} (m : M dir A) (c : dir) :
  in_dir m (Some (Dir c)) =
  (Some (Dir (final (m c))), trace (m c), result (m c)).
Proof. unfold in_dir. by destruct (m c) as [[c' l] o]. Qed.

Lemma in_dir_ext {A} (m1 m2 : M dir A) :
  (∀ c, m1 c = m2 c) → ∀ p, in_dir m1 p = in_dir m2 p.
Proof. intros H [[]|]; try done. unfold in_dir. by rewrite H. Qed.

(** ** The five apply functions *)

(** A guarded library call: one record, and the function returns. *)
Lemma guarded_call_run (k : kind) (f : entry → outcome entry) (t : entry) :
  try_except (call f;; log (Done k [])) (λ e, log (Failed k [] e)) t =
  match f t with
  | Ret t' => (t', [Done k []], Ret tt)
  | Raise e => (t, [Failed k [] e], Ret tt)
  end.
Proof.
  rewrite try_except_run, bind_run. unfold call, log.
  by destruct (f t).
Qed.

Lemma copyFile_run (outside : world) (source : entry) (base : string) (t : entry) :
  copyFile outside source base t =
  match copy2 outside false source base t with
  | Ret t' => (t', [Done Created []], Ret tt)
  | Raise e => (t, [Failed Created [] e], Ret tt)
  end.
Proof. apply guarded_call_run. Qed.

Lemma removeFile_run (t : entry) :
  removeFile t =
  match os_remove t with
  | Ret t' => (t', [Done Removed []], Ret tt)
  | Raise e => (t, [Failed Removed [] e], Ret tt)
  end.
Proof. apply guarded_call_run. Qed.

Lemma removeDir_run (outside : world) (t : entry) :
  removeDir outside t =
  match rmtree outside t with
  | Ret t' => (t', [Done DirRemoved []], Ret tt)
  | Raise e => (t, [Failed DirRemoved [] e], Ret tt)
  end.
Proof. apply guarded_call_run. Qed.

Lemma createDir_run (t : entry) :
  createDir t =
  match os_mkdir t with
  | Ret t' => (t', [Done DirCreated []], Ret tt)
  | Raise e => (t, [Failed DirCreated [] e], Ret tt)
  end.
Proof. apply guarded_call_run. Qed.

Lemma updateFile_run (outside : world) (source : entry) (base : string) (t : entry) :
  updateFile outside source base t =
  match os_remove t with
  | Raise e => (t, [Failed Updated [] e], Ret tt)
  | Ret t1 =>
      match copy2 outside true source base t1 with
      | Ret t2 => (t2, [Done Updated []], Ret tt)
      | Raise e => (t1, [Failed Updated [] e], Ret tt)
      end
  end.
Proof.
  unfold updateFile. rewrite try_except_run, !bind_run. unfold call, log.
  destruct (os_remove t) as [t1|e]; [|done].
  rewrite bind_run. by destruct (copy2 outside true source base t1).
Qed.

(** ** Unfolding [dirSync] *)

Lemma passes_ext {order : SetOrder} (outside : world) (self1 self2 : string → M entry unit)
    (source : entry) (d : DirDiff) :
  (∀ dir t, self1 dir t = self2 dir t) →
  ∀ c, passes outside self1 source d c = passes outside self2 source d c.
Proof.
  intros Hs. unfold passes.
  repeat (apply bind_ext; [|intros _]); try done; apply for_ext; intros x c.
  - apply at_ext, bind_ext; [done | intros _; apply Hs].
  - apply at_ext, Hs.
Qed.

Lemma dirSync_body_run {order : SetOrder} (outside : world) (self : string → M entry unit)
    (source target : entry) :
  dirSync_body outside self source target =
  match dirCmp outside source target with
  | Raise e => (target, [], Raise e)
  | Ret d => in_dir (passes outside self source d) target
  end.
Proof.
  unfold dirSync_body. rewrite bind_run. unfold get at 1.
  rewrite bind_run. unfold lift at 1.
  destruct (dirCmp outside source target) as [d|e]; [|done].
  rewrite (in_dir_ext _ (passes outside self source d)).
  { by destruct (in_dir _ target) as [[? ?] ?]. }
  intros c. unfold passes.
  repeat (apply bind_ext; [|intros _]); try done.
  apply for_ext. intros x c'. apply at_bind.
Qed.

Lemma dirSync_unfold {order : SetOrder} (outside : world) (source target : entry) :
  dirSync outside source target =
  match dirCmp outside source target with
  | Raise e => (target, [], Raise e)
  | Ret d =>
      in_dir (passes outside (λ dir, dirSync outside (child source dir))
                     source d) target
  end.
Proof.
  destruct source as [n|];
    [|unfold dirSync, dirSync_missing; by rewrite dirSync_body_run].
  assert (dirSync outside (Some n) target =
          dirSync_body outside
            (λ dir, default (dirSync_missing outside)
               (match n with
                | Dir c => dirSync_from outside <$> c
                | _ => ∅
                end !! dir)) (Some n) target) as -> by (by destruct n).
  rewrite dirSync_body_run.
  destruct (dirCmp outside (Some n) target) as [d|e]; [|done].
  apply in_dir_ext, passes_ext. intros dir t.
  destruct n as [r c|c|l|]; simpl; rewrite ?lookup_fmap, ?lookup_empty; try done.
  by destruct (c !! dir).
Qed.

(** ** What a pass leaves alone *)

Lemma bind_frame {A B} (m : M dir A) (k : A → M dir B) (name : string) :
  (∀ c, final (m c) !! name = c !! name) →
  (∀ a c, final (k a c) !! name = c !! name) →
  ∀ c, final ((m ≫= k) c) !! name = c !! name.
Proof.
  intros Hm Hk c. rewrite bind_run. specialize (Hm c).
  destruct (m c) as [[c1 l1] [a|e]]; [|done].
  specialize (Hk a c1). destruct (k a c1) as [[c2 l2] o].
  unfold final in *; simpl in *. congruence.
Qed.

(** Names outside the six sets keep their entry through the six loops,
    however the loops end. *)
Lemma passes_frame {order : SetOrder} (outside : world) (self : string → M entry unit)
    (source : entry) (d : DirDiff) (name : string) :
  name ∉ ⋃ (six_sets d) →
  ∀ c, final (passes outside self source d c) !! name = c !! name.
Proof.
  unfold six_sets. simpl. rewrite !not_elem_of_union.
  intros (H1 & H2 & H3 & H4 & H5 & H6 & _).
  unfold passes.
  repeat (apply bind_frame; [|intros _]);
    intros c; apply for_at_frame; by rewrite elem_of_iter.
Qed.

Lemma dirSync_final_dir {order : SetOrder} (outside : world) (source : entry) (c : dir) :
  ∃ c', final (dirSync outside source (Some (Dir c))) = Some (Dir c').
Proof.
  rewrite dirSync_unfold. destruct (dirCmp _ _ _); [|by exists c].
  rewrite in_dir_run. eauto.
Qed.

Lemma absent_or_special_spec (outside : world) (c : dir) (name : string) :
  absent_or_special outside (c !! name) = true →
  (name ∉ files outside c) ∧ (name ∉ subdirs c).
Proof.
  intros H. split.
  - intros (n & Hn & Hf)%elem_of_files. rewrite Hn in H. simpl in H.
    by rewrite Hf in H.
  - intros (c' & Hn)%elem_of_subdirs. rewrite Hn in H. done.
Qed.

(** Every record of a loop over names is for a path through one of the
    names. *)
Lemma for_at_trace_heads {order : SetOrder} (X : gset string) (m : string → M entry unit) (c : dir) :
  Forall (λ ev, ∃ x, x ∈ X ∧ head (ev_path ev) = Some x)
         (trace (for_ (iter X) (λ x, at_ x (m x)) c)).
Proof.
  apply for_trace_Forall. intros x c' Hx%elem_of_iter.
  rewrite at_run. unfold trace at 1. simpl.
  apply Forall_fmap, Forall_forall. intros ev _. exists x.
  split; [done|]. by destruct ev.
Qed.

Lemma passes_trace_heads {order : SetOrder} (outside : world) (self : string → M entry unit)
    (source : entry) (d : DirDiff) (c : dir) :
  Forall (λ ev, ∃ x, x ∈ ⋃ (six_sets d) ∧ head (ev_path ev) = Some x)
         (trace (passes outside self source d c)).
Proof.
  unfold passes.
  repeat (apply bind_trace_Forall; [|intros _; clear c; intros c]);
    (eapply Forall_impl; [apply for_at_trace_heads|]);
    intros ev (x & Hx & Hev); exists x; (split; [|done]);
    unfold six_sets; simpl; set_solver.
Qed.

(** ** Entries that are neither file nor directory *)



(** The pass of the witness: the socket and the dangling link stay, the
    stale file goes, the new file arrives. *)
Example special_entries_pass :
  dirSync nowhere (Some (Dir special_source)) (Some (Dir special_replica)) =
  (tree [("sock", Socket); ("dangling", Symlink "/gone"); ("a.txt", file "a")],
   [Done Created ["a.txt"]; Done Removed ["old.txt"]], Ret tt).
Proof. vm_compute. reflexivity. Qed.

(** A directory that only the replica has is not a compared level: it is
    removed with all it holds, a socket included. *)
Example stale_directory_goes_with_its_socket :
  dirSync nowhere (tree [])
    (tree [("old", Dir (list_to_map [("sock", Socket)]))]) =
  (tree [], [Done DirRemoved ["old"]], Ret tt).
Proof. vm_compute. reflexivity. Qed.

(** ** Replacing a file *)

(** C8, as the program has it.  [updateFile] always returns.  If the
    replica path cannot be removed (it names nothing, or a directory) the
    replica is unchanged and the failure is logged.  Otherwise the replica
    file is removed first; then, if the source can be read, the replica
    holds a regular file with the source content; if it cannot, the
    failure is logged and the replica file is left missing. *)
Theorem updateFile_outcome (outside : world) (source : entry) (base : string)
    (t : entry) :
  updateFile outside source base t =
  match os_remove t, open_rb outside source with
  | Raise e, _ => (t, [Failed Updated [] e], Ret tt)
  | Ret _, Ret data => (Some (File true data), [Done Updated []], Ret tt)
  | Ret _, Raise e => (None, [Failed Updated [] e], Ret tt)
  end.
Proof.
  rewrite updateFile_run.
  destruct t as [[r c|c|l|]|]; simpl; try done;
    unfold copyfile; destruct (open_rb outside source); done.
Qed.

(** C8 as stated fails: when the source can no longer be read at the time
    of the update, the replica file has been removed and nothing replaces
    it. *)
Lemma updateFile_not_atomic :
  updateFile nowhere None "f" (Some (file "old")) =
    (None, [Failed Updated [] FileNotFoundError], Ret tt) ∧
  ¬ replaced_or_unchanged nowhere None (Some (file "old"))
      (final (updateFile nowhere None "f" (Some (file "old")))).
Proof.
  split; [reflexivity|].
  intros [(data & Hopen & _)|Heq]; [discriminate Hopen | discriminate Heq].
Qed.

(** ** The order of operations *)

Lemma bind_trace_split {St A B} (m : M St A) (k : A → M St B) (s : St) :
  ∃ l, trace ((m ≫= k) s) = trace (m s) ++ l ∧
       (l = [] ∨ ∃ a s', l = trace (k a s')).
Proof.
  rewrite bind_run. destruct (m s) as [[s1 l1] [a|e]].
  - exists (trace (k a s1)). split; [|eauto].
    by destruct (k a s1) as [[s2 l2] o].
  - exists []. split; [by rewrite app_nil_r | by left].
Qed.

Lemma for_at_trace_Forall {order : SetOrder} (P : event → Prop) (X : gset string)
    (m : string → M entry unit) :
  (∀ x t, x ∈ X → Forall (λ ev, P (under x ev)) (trace (m x t))) →
  ∀ c, Forall P (trace (for_ (iter X) (λ x, at_ x (m x)) c)).
Proof.
  intros H. apply for_trace_Forall. intros x c' Hx%elem_of_iter.
  rewrite at_run. unfold trace at 1. simpl. apply Forall_fmap. by apply H.
Qed.

Lemma guarded_trace (k : kind) (X : gset string) (x : string)
    (f : entry → outcome entry) (t : entry) :
  x ∈ X →
  Forall (λ ev, at_level k X (under x ev))
    (trace (try_except (call f;; log (Done k [])) (λ e, log (Failed k [] e)) t)).
Proof.
  intros Hx. rewrite guarded_call_run.
  destruct (f t); repeat constructor; by exists x.
Qed.

(** Every record of a pass is for a path below the replica root. *)
Lemma dirSync_trace_paths {order : SetOrder} (outside : world) (source target : entry) :
  Forall (λ ev, ev_path ev ≠ []) (trace (dirSync outside source target)).
Proof.
  rewrite dirSync_unfold. destruct (dirCmp _ _ _) as [d|e]; [|by constructor].
  destruct target as [[r c|c|l|]|]; try by constructor.
  rewrite in_dir_run. unfold trace at 1. simpl.
  eapply Forall_impl; [apply passes_trace_heads|].
  intros ev (x & _ & Hx) Hnil. by rewrite Hnil in Hx.
Qed.

Lemma self_trace_below {order : SetOrder} (outside : world) (source : entry) (X : gset string)
    (x : string) (t : entry) :
  x ∈ X →
  Forall (λ ev, below X (under x ev)) (trace (dirSync outside source t)).
Proof.
  intros Hx. eapply Forall_impl; [apply dirSync_trace_paths|].
  intros ev Hev. destruct ev as [k [|y p]|k [|y p] e]; try done;
    by exists x, y, p.
Qed.

Lemma in_phases_nil (Ps : list (event → Prop)) : in_phases Ps [].
Proof.
  induction Ps as [|P Ps IH]; [done|]. exists [], []. by split_and!.
Qed.

Lemma in_phases_bind {St A B} (P : event → Prop) (Ps : list (event → Prop))
    (m : M St A) (k : A → M St B) (s : St) :
  Forall P (trace (m s)) →
  (∀ a s', in_phases Ps (trace (k a s'))) →
  in_phases (P :: Ps) (trace ((m ≫= k) s)).
Proof.
  intros Hm Hk.
  destruct (bind_trace_split m k s) as (l & -> & [->|(a & s' & ->)]).
  - exists (trace (m s)), []. split_and!; [done..|apply in_phases_nil].
  - exists (trace (m s)), (trace (k a s')). by split_and!.
Qed.

Lemma in_phases_last (P : event → Prop) (l : list event) :
  Forall P l → in_phases [P] l.
Proof. intros H. exists l, []. by rewrite app_nil_r. Qed.



(** ** Convergence *)

Lemma bind_returns {St A B} (m : M St A) (k : A → M St B) (s : St) (a : A) :
  result (m s) = Ret a →
  (m ≫= k) s =
  (final (k a (final (m s))),
   trace (m s) ++ trace (k a (final (m s))),
   result (k a (final (m s)))).
Proof.
  intros H. rewrite bind_run. destruct (m s) as [[s1 l1] o].
  change (o = Ret a) in H. subst o.
  change (final (s1, l1, Ret a)) with s1.
  change (trace (s1, l1, Ret a)) with l1.
  by destruct (k a s1) as [[s2 l2] o].
Qed.

Lemma guarded_returns (k : kind) (f : entry → outcome entry) (t : entry) :
  result (try_except (call f;; log (Done k [])) (λ e, log (Failed k [] e)) t)
  = Ret tt.
Proof. rewrite guarded_call_run. by destruct (f t). Qed.

Lemma updateFile_returns (outside : world) (source : entry) (base : string)
    (t : entry) :
  result (updateFile outside source base t) = Ret tt.
Proof.
  rewrite updateFile_run.
  destruct (os_remove t); [destruct (copy2 _ _ _ _ _)|]; done.
Qed.

(** When the recursive calls return, the six loops return and leave under
    each name what the six steps above compute. *)
Lemma passes_spec {order : SetOrder} (outside : world) (self : string → M entry unit)
    (source : entry) (d : DirDiff) (c : dir) :
  (∀ x, x ∈ newDirs d →
     result ((createDir;; self x)
               (after_updateFiles outside source d x (c !! x))) = Ret tt) →
  (∀ x, x ∈ updateDirs d →
     result (self x (after_removedDir outside self source d x (c !! x)))
     = Ret tt) →
  result (passes outside self source d c) = Ret tt ∧
  ∀ name, final (passes outside self source d c) !! name =
          after_updateDirs outside self source d name (c !! name).
Proof.
  intros H4 H6. unfold passes.
  set (m1 := λ file, copyFile outside (child source file) file).
  set (m3 := λ file, updateFile outside (child source file) file).
  set (m4 := λ dir, createDir;; self dir).
  destruct (for_at_spec (iter (newFiles d)) m1 c) as (R1 & _ & F1).
  { apply iter_NoDup. }
  { intros x _. apply guarded_returns. }
  rewrite (bind_returns _ _ _ _ R1).
  set (c1 := final (for_ (iter (newFiles d)) _ c)) in *.
  destruct (for_at_spec (iter (removedFiles d)) (λ _, removeFile) c1)
    as (R2 & _ & F2).
  { apply iter_NoDup. }
  { intros x _. apply guarded_returns. }
  rewrite (bind_returns _ _ _ _ R2).
  set (c2 := final (for_ (iter (removedFiles d)) _ c1)) in *.
  destruct (for_at_spec (iter (updateFiles d)) m3 c2) as (R3 & _ & F3).
  { apply iter_NoDup. }
  { intros x _. apply updateFile_returns. }
  rewrite (bind_returns _ _ _ _ R3).
  set (c3 := final (for_ (iter (updateFiles d)) _ c2)) in *.
  assert (E3 : ∀ name, c3 !! name =
                 after_updateFiles outside source d name (c !! name)).
  { intros name. rewrite F3, F2, F1.
    unfold after_updateFiles, after_removedFiles, after_newFiles.
    repeat case_decide; rewrite ?elem_of_iter in *; done. }
  destruct (for_at_spec (iter (newDirs d)) m4 c3) as (R4 & _ & F4).
  { apply iter_NoDup. }
  { intros x Hx%elem_of_iter. rewrite E3. by apply H4. }
  rewrite (bind_returns _ _ _ _ R4).
  set (c4 := final (for_ (iter (newDirs d)) _ c3)) in *.
  destruct (for_at_spec (iter (removedDir d)) (λ _, removeDir outside) c4)
    as (R5 & _ & F5).
  { apply iter_NoDup. }
  { intros x _. apply guarded_returns. }
  rewrite (bind_returns _ _ _ _ R5).
  set (c5 := final (for_ (iter (removedDir d)) _ c4)) in *.
  assert (E5 : ∀ name, c5 !! name =
                 after_removedDir outside self source d name (c !! name)).
  { intros name. rewrite F5, F4, E3.
    unfold after_removedDir, after_newDirs.
    repeat case_decide; rewrite ?elem_of_iter in *; done. }
  destruct (for_at_spec (iter (updateDirs d)) self c5) as (R6 & _ & F6).
  { apply iter_NoDup. }
  { intros x Hx%elem_of_iter. rewrite E5. by apply H6. }
  split; [done|].
  intros name. change (final (?s, ?l, ?o)) with s.
  rewrite F6, E5. unfold after_updateDirs.
  repeat case_decide; rewrite ?elem_of_iter in *; done.
Qed.

(** *** Regular trees *)

Lemma regular_lookup (c : dir) (name : string) :
  regular (Dir c) = true →
  c !! name = None ∨
  (∃ b, c !! name = Some (File true b)) ∨
  (∃ c', c !! name = Some (Dir c') ∧ regular (Dir c') = true).
Proof.
  intros Hreg. destruct (c !! name) as [n|] eqn:Hn; [|by left]. right.
  pose proof (regular_child _ _ _ Hreg Hn) as Hn'.
  destruct (regular_cases n Hn') as [[b ->]|[c' ->]]; eauto.
Qed.

Lemma regular_empty : regular (Dir ∅) = true.
Proof. reflexivity. Qed.

Lemma no_clash_empty (c : dir) : no_clash (Dir c) (Dir ∅) = true.
Proof.
  cbn [no_clash]. apply all_children_spec. intros name n _.
  rewrite lookup_empty. by destruct n.
Qed.

Lemma no_clash_file (c1 c2 c' : dir) (name : string) (r : bool) (b : list byte) :
  no_clash (Dir c1) (Dir c2) = true →
  c1 !! name = Some (File r b) → c2 !! name = Some (Dir c') → False.
Proof.
  cbn [no_clash]. rewrite all_children_spec. intros H H1 H2.
  specialize (H _ _ H1). by rewrite H2 in H.
Qed.

Lemma no_clash_dir (c1 c2 s t : dir) (name : string) :
  no_clash (Dir c1) (Dir c2) = true →
  c1 !! name = Some (Dir s) → c2 !! name = Some (Dir t) →
  no_clash (Dir s) (Dir t) = true.
Proof.
  cbn [no_clash]. rewrite all_children_spec. intros H H1 H2.
  specialize (H _ _ H1). by rewrite H2 in H.
Qed.

Lemma fileCmp_files (outside : world) (b1 b2 : list byte) :
  fileCmp outside (Some (File true b1)) (Some (File true b2)) =
  Ret (bool_decide (MD5.hash b1 = MD5.hash b2)).
Proof. by rewrite fileCmp_spec. Qed.

Lemma in_files_file (outside : world) (c : dir) (name : string) r b :
  c !! name = Some (File r b) → name ∈ files outside c ∧ (name ∉ subdirs c).
Proof.
  intros H. rewrite elem_of_files, elem_of_subdirs, H. split; [eauto|].
  by intros [c' [=]].
Qed.

Lemma in_subdirs_dir (outside : world) (c c' : dir) (name : string) :
  c !! name = Some (Dir c') → (name ∉ files outside c) ∧ name ∈ subdirs c.
Proof.
  intros H. rewrite elem_of_files, elem_of_subdirs, H. split; [|eauto].
  by intros (n & [= <-] & ?).
Qed.

Lemma in_none (outside : world) (c : dir) (name : string) :
  c !! name = None → (name ∉ files outside c) ∧ (name ∉ subdirs c).
Proof.
  intros H. rewrite elem_of_files, elem_of_subdirs, H. split.
  - by intros (n & [=] & ?).
  - by intros [c' [=]].
Qed.

Lemma regular_comparable (outside : world) (c1 c2 : dir) :
  regular (Dir c1) = true → regular (Dir c2) = true →
  comparable outside c1 c2.
Proof.
  intros H1 H2 name [Hf1 Hf2]%elem_of_intersection.
  destruct (regular_lookup c1 name H1) as [Hn|[[b1 Hn]|(c' & Hn & _)]].
  - by apply (in_none outside) in Hn as [? _].
  - destruct (regular_lookup c2 name H2) as [Hm|[[b2 Hm]|(c' & Hm & _)]].
    + by apply (in_none outside) in Hm as [? _].
    + by rewrite Hn, Hm, fileCmp_files.
    + by apply (in_subdirs_dir outside) in Hm as [? _].
  - by apply (in_subdirs_dir outside) in Hn as [? _].
Qed.

(** Membership in the six sets, from the two listings. *)
Lemma dirCmp_membership {order : SetOrder} (outside : world) (c1 c2 : dir) (d : DirDiff)
    (name : string) :
  dirCmp outside (Some (Dir c1)) (Some (Dir c2)) = Ret d →
  (name ∈ newFiles d ↔ name ∈ files outside c1 ∧ name ∉ files outside c2) ∧
  (name ∈ removedFiles d ↔
     name ∈ files outside c2 ∧ name ∉ files outside c1) ∧
  (name ∈ updateFiles d ↔
     name ∈ files outside c1 ∧ name ∈ files outside c2 ∧
     fileCmp outside (c1 !! name) (c2 !! name) = Ret false) ∧
  (name ∈ newDirs d ↔ name ∈ subdirs c1 ∧ name ∉ subdirs c2) ∧
  (name ∈ removedDir d ↔ name ∈ subdirs c2 ∧ name ∉ subdirs c1) ∧
  (name ∈ updateDirs d ↔ name ∈ subdirs c1 ∧ name ∈ subdirs c2).
Proof.
  intros Hd. apply dirCmp_Ret_inv in Hd
    as (? & ? & [= <-] & [= <-] & HnF & HnD & HuD & HrF & HrD & HuF & _).
  rewrite HnF, HnD, HuD, HrF, HrD, HuF.
  rewrite !elem_of_difference, elem_of_intersection. tauto.
Qed.

Lemma mirrors_pointwise (c1 c2 : dir) :
  (∀ name, entry_mirrors (c1 !! name) (c2 !! name)) → mirrors (Dir c1) (Dir c2).
Proof.
  intros H. constructor.
  - apply set_eq. intros name. rewrite !elem_of_dom. specialize (H name).
    destruct (c1 !! name), (c2 !! name); simpl in H; try done;
      split; (eauto || intros [? [=]]).
  - intros name n1 n2 H1 H2. specialize (H name). by rewrite H1, H2 in H.
Qed.

Lemma new_dir_run (m : M entry unit) :
  (createDir;; m) None =
  (final (m (Some (Dir ∅))),
   Done DirCreated [] :: trace (m (Some (Dir ∅))),
   result (m (Some (Dir ∅)))).
Proof.
  rewrite bind_run, createDir_run. simpl.
  by destruct (m (Some (Dir ∅))) as [[? ?] ?].
Qed.

(** Settling the membership tests of the per-name steps from the facts in
    the context. *)
Ltac settle_decides :=
  repeat match goal with
  | |- context [decide (?x ∈ ?X)] =>
      first [ rewrite (decide_True (P := x ∈ X)) by (intuition congruence)
            | rewrite (decide_False (P := x ∈ X)) by (intuition congruence) ]
  end.

Lemma dirSync_mirrors {order : SetOrder} (outside : world) (n1 : node) :
  ∀ c1, n1 = Dir c1 →
  ∀ c2, regular (Dir c1) = true → regular (Dir c2) = true →
        no_clash (Dir c1) (Dir c2) = true →
  ∃ c2', final (dirSync outside (Some (Dir c1)) (Some (Dir c2))) = Some (Dir c2') ∧
         result (dirSync outside (Some (Dir c1)) (Some (Dir c2))) = Ret tt ∧
         mirrors (Dir c1) (Dir c2').
Proof.
  induction n1 as [r b|c IH|l|] using node_tree_ind; intros c1 [=]; subst c1.
  intros c2 Hr1 Hr2 Hnc.
  destruct (comparable_returns outside c c2) as [d Hd];
    [by apply regular_comparable|].
  rewrite dirSync_unfold, Hd, in_dir_run.
  change (final (?s, ?l, ?o)) with s. change (result (?s, ?l, ?o)) with o.
  set (self := λ dir, dirSync outside (child (Some (Dir c)) dir)).
  (* what the pass makes of a new directory *)
  assert (Hnew : ∀ x s, c !! x = Some (Dir s) →
            ∃ t', final ((createDir;; self x) None) = Some (Dir t') ∧
                  result ((createDir;; self x) None) = Ret tt ∧
                  mirrors (Dir s) (Dir t')).
  { intros x s Hx. rewrite new_dir_run.
    change (final (?s, ?l, ?o)) with s. change (result (?s, ?l, ?o)) with o.
    unfold self. simpl child. rewrite Hx.
    apply (IH x (Dir s) Hx s eq_refl ∅).
    - exact (regular_child _ _ _ Hr1 Hx).
    - apply regular_empty.
    - apply no_clash_empty. }
  (* what the pass makes of a directory present on both sides *)
  assert (Hboth : ∀ x s t, c !! x = Some (Dir s) → c2 !! x = Some (Dir t) →
            ∃ t', final (self x (Some (Dir t))) = Some (Dir t') ∧
                  result (self x (Some (Dir t))) = Ret tt ∧
                  mirrors (Dir s) (Dir t')).
  { intros x s t Hx Hx2. unfold self. simpl child. rewrite Hx.
    apply (IH x (Dir s) Hx s eq_refl t).
    - exact (regular_child _ _ _ Hr1 Hx).
    - exact (regular_child _ _ _ Hr2 Hx2).
    - exact (no_clash_dir _ _ _ _ _ Hnc Hx Hx2). }
  (* the steps, name by name *)
  assert (Hsteps : ∀ name,
            (name ∈ newDirs d →
               result ((createDir;; self name)
                 (after_updateFiles outside (Some (Dir c)) d name (c2 !! name)))
               = Ret tt) ∧
            (name ∈ updateDirs d →
               result (self name
                 (after_removedDir outside self (Some (Dir c)) d name (c2 !! name)))
               = Ret tt) ∧
            entry_mirrors (c !! name)
              (after_updateDirs outside self (Some (Dir c)) d name (c2 !! name))).
  { intros name.
    destruct (dirCmp_membership _ _ _ _ name Hd)
      as (HnF & HrF & HuF & HnD & HrD & HuD).
    unfold after_updateDirs, after_removedDir, after_newDirs,
      after_updateFiles, after_removedFiles, after_newFiles.
    destruct (regular_lookup c name Hr1) as [Hn|[[b1 Hn]|(s & Hn & Hrs)]];
      destruct (regular_lookup c2 name Hr2) as [Hm|[[b2 Hm]|(t & Hm & Hrt)]].
    - (* absent on both sides *)
      destruct (in_none outside _ _ Hn), (in_none outside _ _ Hm).
      rewrite Hn, Hm. split_and!; [tauto..|]. settle_decides. done.
    - (* a file to remove *)
      destruct (in_none outside _ _ Hn), (in_files_file outside _ _ _ _ Hm).
      rewrite Hn, Hm. split_and!; [tauto..|]. settle_decides.
      rewrite removeFile_run. done.
    - (* a directory to remove *)
      destruct (in_none outside _ _ Hn), (in_subdirs_dir outside _ _ _ Hm).
      rewrite Hn, Hm. split_and!; [tauto..|]. settle_decides.
      rewrite removeDir_run. done.
    - (* a file to copy *)
      destruct (in_files_file outside _ _ _ _ Hn), (in_none outside _ _ Hm).
      rewrite Hn, Hm. split_and!; [tauto..|]. settle_decides.
      rewrite copyFile_run. simpl child. rewrite Hn. simpl. by constructor.
    - (* a file on both sides *)
      destruct (in_files_file outside _ _ _ _ Hn),
        (in_files_file outside _ _ _ _ Hm).
      rewrite Hn, Hm, fileCmp_files in HuF. rewrite Hn, Hm.
      split_and!; [tauto..|].
      destruct (decide (MD5.hash b1 = MD5.hash b2)) as [Heq|Hne].
      + rewrite bool_decide_eq_true_2 in HuF by done. settle_decides.
        by constructor.
      + rewrite bool_decide_eq_false_2 in HuF by done. settle_decides.
        rewrite updateFile_run. simpl child. rewrite Hn. simpl.
        by constructor.
    - (* a file over a directory: excluded *)
      destruct (no_clash_file _ _ _ _ _ _ Hnc Hn Hm).
    - (* a directory to create *)
      destruct (in_subdirs_dir outside _ _ _ Hn), (in_none outside _ _ Hm).
      destruct (Hnew name s Hn) as (t' & Hfin & Hres & Hmir).
      rewrite Hn, Hm. settle_decides. split_and!; [done|tauto|].
      by rewrite Hfin.
    - (* a directory in place of a file *)
      destruct (in_subdirs_dir outside _ _ _ Hn),
        (in_files_file outside _ _ _ _ Hm).
      destruct (Hnew name s Hn) as (t' & Hfin & Hres & Hmir).
      rewrite Hn, Hm. settle_decides. rewrite removeFile_run.
      cbn [os_remove]. change (final (?s, ?l, ?o)) with s.
      split_and!; [done|tauto|]. by rewrite Hfin.
    - (* a directory on both sides *)
      destruct (in_subdirs_dir outside _ _ _ Hn),
        (in_subdirs_dir outside _ _ _ Hm).
      destruct (Hboth name s t Hn Hm) as (t' & Hfin & Hres & Hmir).
      rewrite Hn, Hm. settle_decides. split_and!; [tauto|done|].
      by rewrite Hfin. }
  destruct (passes_spec outside self (Some (Dir c)) d c2) as [Hres Hfin].
  { intros x Hx. by apply Hsteps. }
  { intros x Hx. by apply Hsteps. }
  eexists. split_and!; [done..|].
  apply mirrors_pointwise. intros name. rewrite Hfin. apply Hsteps.
Qed.

Lemma mirrors_lookup (c1 c2 : dir) (name : string) :
  mirrors (Dir c1) (Dir c2) →
  (c1 !! name = None ∧ c2 !! name = None) ∨
  (∃ b1 b2, c1 !! name = Some (File true b1) ∧
            c2 !! name = Some (File true b2) ∧ MD5.hash b1 = MD5.hash b2) ∨
  (∃ s t, c1 !! name = Some (Dir s) ∧ c2 !! name = Some (Dir t) ∧
          mirrors (Dir s) (Dir t)).
Proof.
  inversion_clear 1 as [|? ? Hdom Hsub].
  destruct (c1 !! name) as [n1|] eqn:H1, (c2 !! name) as [n2|] eqn:H2.
  - right. specialize (Hsub _ _ _ H1 H2).
    inversion Hsub; subst; [left|right]; eauto 10.
  - apply not_elem_of_dom in H2. rewrite <- Hdom in H2.
    apply not_elem_of_dom in H2. congruence.
  - apply not_elem_of_dom in H1. rewrite Hdom in H1.
    apply not_elem_of_dom in H1. congruence.
  - by left.
Qed.

(** A replica that mirrors the source is one on which [dirCmp] finds
    nothing to do, at every level. *)
Lemma mirrors_synced {order : SetOrder} (outside : world) (n1 : node) :
  ∀ c1 c2, n1 = Dir c1 → mirrors (Dir c1) (Dir c2) → synced outside c1 c2.
Proof.
  induction n1 as [r b|c IH|l|] using node_tree_ind; intros c1 c2 [=]; subst c1.
  intros Hmir.
  assert (Hfacts : ∀ name,
    (name ∈ files outside c ↔ name ∈ files outside c2) ∧
    (name ∈ subdirs c ↔ name ∈ subdirs c2) ∧
    (name ∈ files outside c → name ∈ files outside c2 →
       fileCmp outside (c !! name) (c2 !! name) = Ret true)).
  { intros name.
    destruct (mirrors_lookup c c2 name Hmir)
      as [[Hn Hm]|[(b1 & b2 & Hn & Hm & Hh)|(s & t & Hn & Hm & _)]].
    - destruct (in_none outside _ _ Hn), (in_none outside _ _ Hm). tauto.
    - destruct (in_files_file outside _ _ _ _ Hn),
        (in_files_file outside _ _ _ _ Hm).
      split_and!; [tauto..|]. intros _ _.
      rewrite Hn, Hm, fileCmp_files. by rewrite bool_decide_eq_true_2.
    - destruct (in_subdirs_dir outside _ _ _ Hn),
        (in_subdirs_dir outside _ _ _ Hm). tauto. }
  destruct (comparable_returns outside c c2) as [d Hd].
  { intros name [H1 H2]%elem_of_intersection.
    destruct (Hfacts name) as (_ & _ & Hc). by rewrite Hc. }
  apply (synced_intro outside c c2 d Hd).
  - apply elem_of_equiv_empty_L. intros name.
    destruct (dirCmp_membership _ _ _ _ name Hd) as (H & _).
    destruct (Hfacts name). tauto.
  - apply elem_of_equiv_empty_L. intros name.
    destruct (dirCmp_membership _ _ _ _ name Hd) as (_ & _ & _ & H & _).
    destruct (Hfacts name) as (_ & ? & _). tauto.
  - apply elem_of_equiv_empty_L. intros name.
    destruct (dirCmp_membership _ _ _ _ name Hd) as (_ & _ & H & _).
    destruct (Hfacts name) as (_ & _ & Hc).
    intros (H1 & H2 & Hf)%H. rewrite Hc in Hf by done. discriminate.
  - apply elem_of_equiv_empty_L. intros name.
    destruct (dirCmp_membership _ _ _ _ name Hd) as (_ & H & _).
    destruct (Hfacts name). tauto.
  - apply elem_of_equiv_empty_L. intros name.
    destruct (dirCmp_membership _ _ _ _ name Hd) as (_ & _ & _ & _ & H & _).
    destruct (Hfacts name) as (_ & ? & _). tauto.
  - apply set_eq. intros name.
    destruct (dirCmp_membership _ _ _ _ name Hd) as (_ & _ & _ & _ & _ & H).
    destruct (Hfacts name) as (_ & ? & _). tauto.
  - intros name s t Hn Hm. apply (IH name (Dir s) Hn s t eq_refl).
    destruct (mirrors_lookup c c2 name Hmir)
      as [[Hn' Hm']|[(b1 & b2 & Hn' & Hm' & Hh)|(s' & t' & Hn' & Hm' & Hst)]];
      congruence.
Qed.

Lemma mjoin_nils {A B} (f : A → list B) (l : list A) :
  (∀ x, x ∈ l → f x = []) → mjoin (f <$> l) = [].
Proof.
  induction l as [|x l IH]; intros H; [done|]. simpl.
  rewrite (H x) by (by left). apply IH. intros y Hy. apply H. by right.
Qed.

Lemma ret_bind {St A B} (a : A) (k : A → M St B) (s : St) :
  (mret a ≫= k) s = k a s.
Proof. rewrite bind_run. unfold mret, run_ret. by destruct (k a s) as [[? ?] ?]. Qed.

Lemma iter_empty {order : SetOrder} : iter ∅ = [].
Proof.
  destruct (iter ∅) as [|x l] eqn:E; [done|].
  assert (x ∈ iter ∅) as Hx%elem_of_iter by (rewrite E; by left).
  by apply not_elem_of_empty in Hx.
Qed.

Lemma passes_only_recursion {order : SetOrder} (outside : world) (self : string → M entry unit)
    (source : entry) (d : DirDiff) (c : dir) :
  newFiles d = ∅ → newDirs d = ∅ → updateFiles d = ∅ →
  removedFiles d = ∅ → removedDir d = ∅ →
  passes outside self source d c =
  for_ (iter (updateDirs d)) (λ dir, at_ dir (self dir)) c.
Proof.
  intros HnF HnD HuF HrF HrD. unfold passes.
  rewrite HnF, HnD, HuF, HrF, HrD, iter_empty. cbn [for_].
  by rewrite !ret_bind.
Qed.

(** On a synced pair a pass does nothing: no call, no change. *)
Lemma synced_noop {order : SetOrder} (outside : world) (c1 c2 : dir) :
  synced outside c1 c2 →
  dirSync outside (Some (Dir c1)) (Some (Dir c2)) = (Some (Dir c2), [], Ret tt).
Proof.
  induction 1 as [c1 c2 d Hd HnF HnD HuF HrF HrD HuD Hsub IH].
  rewrite dirSync_unfold, Hd, in_dir_run.
  rewrite passes_only_recursion by done.
  assert (Hself : ∀ x, x ∈ iter (updateDirs d) →
            dirSync outside (child (Some (Dir c1)) x) (c2 !! x) =
            (c2 !! x, [], Ret tt)).
  { intros x Hx%elem_of_iter.
    destruct (dirCmp_membership _ _ _ _ x Hd) as (_ & _ & _ & _ & _ & H).
    apply H in Hx as [[s Hs]%elem_of_subdirs [t Ht]%elem_of_subdirs].
    simpl child. rewrite Hs, Ht. by eapply IH. }
  destruct (for_at_spec (iter (updateDirs d))
              (λ dir, dirSync outside (child (Some (Dir c1)) dir)) c2)
    as (R & T & F).
  { apply iter_NoDup. }
  { intros x Hx. by rewrite Hself. }
  cbv beta in R, T, F. rewrite R, T.
  rewrite mjoin_nils by (intros x Hx; by rewrite Hself).
  repeat f_equal. apply map_eq. intros name. rewrite F.
  case_decide as Hx; [|done]. by rewrite Hself.
Qed.



(** The pass of the scenario. *)
Example scenario_pass :
  final (dirSync nowhere (Some (Dir scenario_source)) (Some (Dir scenario_replica)))
  = Some (Dir scenario_source).
Proof. vm_compute. reflexivity. Qed.





(** C7: a file that cannot be read while [dirCmp] fingerprints it ends
    the pass with the exception, before any call is made: [b.txt] is not
    copied, nothing is logged.  The same unreadable file, when it is to
    be copied, is handled: the failure is logged, [b.txt] is copied and
    the pass returns. *)
Theorem digest_failure_aborts_pass :
  dirSync nowhere (Some (Dir unreadable_source)) (Some (Dir unreadable_replica)) =
    (Some (Dir unreadable_replica), [], Raise PermissionError) ∧
  final (dirSync nowhere (Some (Dir unreadable_source)) (tree [])) =
    tree [("b.txt", file "b")] ∧
  result (dirSync nowhere (Some (Dir unreadable_source)) (tree [])) = Ret tt ∧
  Failed Created ["a.txt"] PermissionError ∈
    trace (dirSync nowhere (Some (Dir unreadable_source)) (tree [])) ∧
  Done Created ["b.txt"] ∈
    trace (dirSync nowhere (Some (Dir unreadable_source)) (tree [])).
Proof.
  assert (H : dirSync nowhere (Some (Dir unreadable_source)) (tree []) =
    (tree [("b.txt", file "b")],
     [Failed Created ["a.txt"] PermissionError; Done Created ["b.txt"]],
     Ret tt)) by (vm_compute; reflexivity).
  split; [vm_compute; reflexivity|]. rewrite H.
  change (final (?s, ?l, ?o)) with s. change (result (?s, ?l, ?o)) with o.
  change (trace (?s, ?l, ?o)) with l.
  split; [reflexivity|]. split; [reflexivity|].
  split; [by left | right; by left].
Qed.

(** C9: a new symbolic link is copied as a link; a symbolic link to
    update is replaced by a regular file holding the content of the
    source link's target. *)
Theorem update_follows_symlink :
  dirSync versions (Some (Dir link_source)) (tree []) =
    (tree [("current", Symlink "/data/v2")], [Done Created ["current"]], Ret tt) ∧
  dirSync versions (Some (Dir link_source)) (Some (Dir link_replica)) =
    (tree [("current", file "new")], [Done Updated ["current"]], Ret tt).
Proof. split; vm_compute; reflexivity. Qed.

(** A failure to fingerprint a file present on both sides always ends the
    pass: nothing is done, the exception leaves [dirSync]. *)
Lemma fingerprint_failure_propagates {order : SetOrder} (outside : world) (c1 c2 : dir)
    (name : string) (e : exn) :
  name ∈ files outside c1 → name ∈ files outside c2 →
  fileCmp outside (c1 !! name) (c2 !! name) = Raise e →
  ∃ e', dirSync outside (Some (Dir c1)) (Some (Dir c2)) =
        (Some (Dir c2), [], Raise e').
Proof.
  intros H1 H2 He. rewrite dirSync_unfold.
  destruct (dirCmp outside (Some (Dir c1)) (Some (Dir c2))) as [d|e'] eqn:Hd;
    [|eauto].
  apply dirCmp_Ret_inv in Hd as (? & ? & [= <-] & [= <-] & _ & _ & _ & _ & _ & _ & Hret).
  destruct (Hret name H1 H2) as [b Hb]. congruence.
Qed.

(** ** Why convergence needs its hypotheses *)

(** A source file that cannot be read is not copied: it is still new
    after the pass. *)
Example unreadable_source_stays_new :
  dirSync nowhere (tree [("a.txt", File false (bytes "secret"))]) (tree []) =
    (tree [], [Failed Created ["a.txt"] PermissionError], Ret tt) ∧
  dirCmp nowhere (tree [("a.txt", File false (bytes "secret"))]) (tree []) =
    Ret {| newFiles := {["a.txt"]}; newDirs := ∅; updateFiles := ∅;
           updateDirs := ∅; removedFiles := ∅; removedDir := ∅ |}.
Proof. split; vm_compute; reflexivity. Qed.

(** A socket in the replica under the name of a source file blocks the
    copy, pass after pass. *)
Example socket_blocks_copy :
  dirSync nowhere (tree [("x", file "a")]) (tree [("x", Socket)]) =
    (tree [("x", Socket)], [Failed Created ["x"] OSError], Ret tt).
Proof. vm_compute. reflexivity. Qed.

(** A socket in the replica under the name of a source directory ends the
    pass with an exception: the directory cannot be created, and the
    recursive call lists a path that is not a directory. *)
Example socket_blocks_directory :
  dirSync nowhere (tree [("x", Dir ∅); ("z", file "z")]) (tree [("x", Socket)]) =
    (tree [("x", Socket); ("z", file "z")],
     [Done Created ["z"]; Failed DirCreated ["x"] FileExistsError],
     Raise NotADirectoryError).
Proof. vm_compute. reflexivity. Qed.

(** A directory of the source replaces a file of the same name in one
    pass: the file is removed before the directory is created. *)
Example directory_replaces_file :
  dirSync nowhere (tree [("x", Dir (list_to_map [("y", file "y")]))])
                  (tree [("x", file "old")]) =
    (tree [("x", Dir (list_to_map [("y", file "y")]))],
     [Done Removed ["x"]; Done DirCreated ["x"]; Done Created ["x"; "y"]],
     Ret tt).
Proof. vm_compute. reflexivity. Qed.

(** ** Further properties: the fingerprint and the comparator *)

(** X1.  [digest] returns the MD5 of the whole content of the file,
    whatever its length against the 65536-byte buffer, and raises what
    [open] raises when the file cannot be opened. *)
Theorem digest_md5_of_content (outside : world) (p : entry) :
  digest outside p =
  match open_rb outside p with
  | Ret content => Ret (MD5.hash content)
  | Raise e => Raise e
  end.
Proof.
  unfold digest. destruct (open_rb outside p) as [content|e]; [|done].
  cbn [mbind outcome_bind].
  destruct (read_spec bufferSize content) as [Happ Hnil].
  destruct (read bufferSize content) as [data file]; simpl in Happ, Hnil.
  f_equal. unfold MD5.digest, MD5.new.
  (* the loop stops on the empty chunk, having fed every chunk in order *)
  rewrite digest_loop_feeds_all.
  - by rewrite Happ.
  - rewrite <- Happ, length_app. lia.
  - intros ->. rewrite Hnil in Happ by done. by destruct file.
Qed.

Lemma fileCmp_sym (outside : world) (p1 p2 : entry) (b : bool) :
  fileCmp outside p1 p2 = Ret b → fileCmp outside p2 p1 = Ret b.
Proof.
  rewrite !fileCmp_spec.
  destruct (open_rb outside p1), (open_rb outside p2); simpl; try done.
  intros [= <-]. f_equal. apply bool_decide_ext. split; congruence.
Qed.

Lemma fileCmp_diag (outside : world) (p : entry) (b : bool) :
  fileCmp outside p p = Ret b → b = true.
Proof.
  rewrite fileCmp_spec. destruct (open_rb outside p); simpl; [|done].
  intros [= <-]. by rewrite bool_decide_eq_true_2.
Qed.

(** X2.  Where it returns, [fileCmp] is an equivalence: a file that can
    be opened equals itself, the answer does not depend on the order of
    the two arguments, and two files equal to a third are equal. *)
Theorem fileCmp_equivalence (outside : world) (p1 p2 p3 : entry) :
  (returns (open_rb outside p1) → fileCmp outside p1 p1 = Ret true) ∧
  (∀ b, fileCmp outside p1 p2 = Ret b → fileCmp outside p2 p1 = Ret b) ∧
  (fileCmp outside p1 p2 = Ret true → fileCmp outside p2 p3 = Ret true →
   fileCmp outside p1 p3 = Ret true).
Proof.
  rewrite !fileCmp_spec.
  destruct (open_rb outside p1) as [b1|e1], (open_rb outside p2) as [b2|e2],
    (open_rb outside p3) as [b3|e3]; simpl; split_and!; try done.
  all: try (intros _; by rewrite bool_decide_eq_true_2).
  all: try (intros b [= <-]; f_equal; apply bool_decide_ext; split; congruence).
  all: intros [= H1%bool_decide_eq_true_1] [= H2%bool_decide_eq_true_1];
    rewrite bool_decide_eq_true_2; congruence.
Qed.

Lemma fileCmp_equivalence_witness :
  returns (open_rb nowhere (Some (file "a"))) ∧
  fileCmp nowhere (Some (file "a")) (Some (file "a")) = Ret true.
Proof.
  split; [exact I|].
  exact (proj1 (fileCmp_equivalence nowhere (Some (file "a")) None None) I).
Defined.

(** ** Further properties: [dirCmp] *)


(** X4.  Exchanging the two arguments of [dirCmp] exchanges new and
    removed, for files and for directories, and keeps the sets of files
    and directories to update. *)
Theorem dirCmp_swap {order : SetOrder} (outside : world) (dir1 dir2 : entry)
    (d : DirDiff) :
  dirCmp outside dir1 dir2 = Ret d →
  ∃ d', dirCmp outside dir2 dir1 = Ret d' ∧
        newFiles d' = removedFiles d ∧ removedFiles d' = newFiles d ∧
        newDirs d' = removedDir d ∧ removedDir d' = newDirs d ∧
        updateFiles d' = updateFiles d ∧ updateDirs d' = updateDirs d.
Proof.
  intros Hd.
  destruct (dirCmp_Ret_inv _ _ _ _ Hd)
    as (c1 & c2 & -> & -> & HnF & HnD & HuD & HrF & HrD & HuF & Hall).
  destruct (dirCmp_returns outside c2 c1) as [d' Hd'].
  { intros name H2 H1. destruct (Hall name H1 H2) as [b Hb].
    exists b. by apply fileCmp_sym. }
  exists d'. split; [done|].
  destruct (dirCmp_Ret_inv _ _ _ _ Hd')
    as (? & ? & [= <-] & [= <-] & HnF' & HnD' & HuD' & HrF' & HrD' & HuF' & _).
  rewrite HnF', HrF', HnD', HrD', HuD', HnF, HrF, HnD, HrD, HuD.
  split_and!; try done.
  - apply set_eq. intros name. rewrite HuF, HuF'.
    split; intros (? & ? & ?); split_and!; try done; by apply fileCmp_sym.
  - set_solver.
Qed.

Lemma dirCmp_swap_witness :
  dirCmp nowhere (Some (Dir mixed_source)) (Some (Dir mixed_replica)) =
    Ret {| newFiles := {["new.txt"]}; newDirs := ∅; updateFiles := {["edit.txt"]};
           updateDirs := {["sub"]}; removedFiles := {["old.txt"]};
           removedDir := ∅ |} ∧
  ∃ d', dirCmp nowhere (Some (Dir mixed_replica)) (Some (Dir mixed_source)) = Ret d' ∧
        newFiles d' = {["old.txt"]} ∧ removedFiles d' = {["new.txt"]} ∧
        newDirs d' = ∅ ∧ removedDir d' = ∅ ∧
        updateFiles d' = {["edit.txt"]} ∧ updateDirs d' = {["sub"]}.
Proof.
  assert (H : dirCmp nowhere (Some (Dir mixed_source)) (Some (Dir mixed_replica)) =
    Ret {| newFiles := {["new.txt"]}; newDirs := ∅; updateFiles := {["edit.txt"]};
           updateDirs := {["sub"]}; removedFiles := {["old.txt"]};
           removedDir := ∅ |}).
  { vm_compute. reflexivity. }
  split; [exact H|].
  exact (dirCmp_swap nowhere _ _ _ H).
Defined.



(** ** Further properties: how computations end *)

Lemma bind_result_Raise {St A B} (m : M St A) (k : A → M St B) (s : St) (e : exn) :
  result ((m ≫= k) s) = Raise e →
  result (m s) = Raise e ∨ ∃ a s', result (k a s') = Raise e.
Proof.
  rewrite bind_run. destruct (m s) as [[s1 l1] [a|e1]].
  2: { unfold result. simpl. intros [= ->]. by left. }
  destruct (k a s1) as [[s2 l2] o] eqn:Hk. intros H. right.
  exists a, s1. by rewrite Hk.
Qed.

Lemma bind_result_Ret {St A B} (m : M St A) (k : A → M St B) (s : St) (b : B) :
  result ((m ≫= k) s) = Ret b → ∃ a, result (m s) = Ret a.
Proof.
  rewrite bind_run. destruct (m s) as [[s1 l1] [a|e1]]; [eauto|done].
Qed.

Lemma bind_returned {St A B} (m : M St A) (k : A → M St B) (s : St) (b : B) :
  result ((m ≫= k) s) = Ret b →
  ∃ a, result (m s) = Ret a ∧
       result (k a (final (m s))) = Ret b ∧
       trace ((m ≫= k) s) = trace (m s) ++ trace (k a (final (m s))).
Proof.
  intros H. destruct (bind_result_Ret _ _ _ _ H) as [a Ha]. exists a.
  rewrite (bind_returns _ _ _ _ Ha) in *. done.
Qed.

Lemma for_result_Raise {St A} (xs : list A) (body : A → M St unit) (s : St) (e : exn) :
  result (for_ xs body s) = Raise e →
  ∃ x s', x ∈ xs ∧ result (body x s') = Raise e.
Proof.
  revert s. induction xs as [|x xs IH]; intros s; [done|].
  cbn [for_]. intros [H|(_ & s' & H)]%bind_result_Raise.
  - exists x, s. split; [left|done].
  - destruct (IH _ H) as (y & s'' & Hy & Hr). exists y, s''. split; [by right|done].
Qed.

(** A loop over distinct names that returns has run every body to its
    end, each on the entry the loop started with. *)
Lemma for_at_result_inv (xs : list string) (m : string → M entry unit) (c : dir) :
  NoDup xs →
  result (for_ xs (λ x, at_ x (m x)) c) = Ret tt →
  ∀ x, x ∈ xs → result (m x (c !! x)) = Ret tt.
Proof.
  intros Hnd. revert c. induction Hnd as [|x xs Hx Hnd IH]; intros c H y Hy.
  { by apply elem_of_nil in Hy. }
  cbn [for_] in H. destruct (bind_result_Ret _ _ _ _ H) as [[] Hr].
  rewrite (bind_returns _ _ _ _ Hr) in H. change (result (?s, ?l, ?o)) with o in H.
  rewrite at_run in Hr. change (result (?s, ?l, ?o)) with o in Hr.
  apply elem_of_cons in Hy as [->|Hy]; [done|].
  specialize (IH _ H y Hy). rewrite at_run in IH.
  change (final (?s, ?l, ?o)) with s in IH.
  rewrite lookup_put in IH. case_decide; [by subst|done].
Qed.

(** A loop over distinct names raises when the body raises on the entry
    found under one of them. *)
Lemma for_at_raises (xs : list string) (m : string → M entry unit) (c : dir)
    (name : string) :
  NoDup xs → name ∈ xs →
  (∃ e, result (m name (c !! name)) = Raise e) →
  ∃ e, result (for_ xs (λ x, at_ x (m x)) c) = Raise e.
Proof.
  intros Hnd. revert c. induction Hnd as [|x xs Hx Hnd IH]; intros c Hin Hr.
  { by apply elem_of_nil in Hin. }
  cbn [for_]. rewrite bind_run, at_run.
  destruct (result (m x (c !! x))) as [[]|e] eqn:Hres; [|eauto].
  apply elem_of_cons in Hin as [->|Hin].
  { destruct Hr as [e He]. congruence. }
  destruct (IH (put x (final (m x (c !! x))) c) Hin) as [e He].
  { rewrite lookup_put. case_decide; [by subst|done]. }
  exists e. by destruct (for_ xs _ _) as [[? ?] ?].
Qed.

(** A name keeps the entry [e] through a loop whose body keeps it. *)
Lemma for_at_keeps (xs : list string) (m : string → M entry unit)
    (name : string) (e : entry) :
  (name ∈ xs → final (m name e) = e) →
  ∀ c, c !! name = e →
       final (for_ xs (λ x, at_ x (m x)) c) !! name = e.
Proof.
  induction xs as [|x xs IH]; intros Hm c Hc; [done|].
  cbn [for_]. rewrite bind_run, at_run.
  assert (Hc' : put x (final (m x (c !! x))) c !! name = e).
  { rewrite lookup_put. case_decide; [|done]. subst x. rewrite Hc.
    apply Hm. left. }
  destruct (result (m x (c !! x))) as [[]|e']; [|done].
  assert (IH' := IH (λ H, Hm (proj2 (elem_of_cons _ _ _) (or_intror H))) _ Hc').
  by destruct (for_ xs _ _) as [[? ?] ?].
Qed.

Lemma bind_keeps {A B} (m : M dir A) (k : A → M dir B) (name : string) (e : entry) :
  (∀ c, c !! name = e → final (m c) !! name = e) →
  (∀ a c, c !! name = e → final (k a c) !! name = e) →
  ∀ c, c !! name = e → final ((m ≫= k) c) !! name = e.
Proof.
  intros Hm Hk c Hc. rewrite bind_run. specialize (Hm c Hc).
  destruct (m c) as [[c1 l1] [a|e']]; [|done].
  specialize (Hk a c1 Hm). by destruct (k a c1) as [[c2 l2] o].
Qed.

(** ** Further properties: arguments that are not directories *)

(** X6.  [dirSync] on a source or a replica path that cannot be listed (it
    names nothing, or something that is not a directory) raises the
    exception of the listing, changes nothing and logs nothing; a missing
    replica directory is not created. *)
Theorem dirSync_needs_directories {order : SetOrder} (outside : world)
    (source target : entry) (e : exn) :
  iterdir outside source = Raise e ∨
  (returns (iterdir outside source) ∧ iterdir outside target = Raise e) →
  dirSync outside source target = (target, [], Raise e).
Proof.
  intros H. rewrite dirSync_unfold. unfold dirCmp.
  destruct H as [->|[H1 ->]]; [done|].
  by destruct (iterdir outside source).
Qed.

Lemma dirSync_needs_directories_witness :
  (iterdir nowhere (Some (Dir special_source)) = Raise FileNotFoundError ∨
   (returns (iterdir nowhere (Some (Dir special_source))) ∧
    iterdir nowhere None = Raise FileNotFoundError)) ∧
  dirSync nowhere (Some (Dir special_source)) None = (None, [], Raise FileNotFoundError).
Proof.
  assert (H : iterdir nowhere (Some (Dir special_source)) = Raise FileNotFoundError ∨
   (returns (iterdir nowhere (Some (Dir special_source))) ∧
    iterdir nowhere None = Raise FileNotFoundError)).
  { right. split; [exact I|reflexivity]. }
  split; [exact H|].
  exact (dirSync_needs_directories nowhere (Some (Dir special_source)) None
           FileNotFoundError H).
Defined.

(** ** Further properties: where exceptions come from *)

Lemma guarded_at_no_raise (k : kind) (f : entry → outcome entry) (x : string)
    (c : dir) (e : exn) :
  result (at_ x (try_except (call f;; log (Done k [])) (λ e, log (Failed k [] e))) c)
  ≠ Raise e.
Proof.
  rewrite at_run. change (result (?s, ?l, ?o)) with o.
  by rewrite guarded_returns.
Qed.

Lemma passes_raise_site {order : SetOrder} (outside : world) (self : string → M entry unit)
    (source : entry) (d : DirDiff) (c : dir) (e : exn) :
  result (passes outside self source d c) = Raise e →
  ∃ dir t, (dir ∈ newDirs d ∨ dir ∈ updateDirs d) ∧ result (self dir t) = Raise e.
Proof.
  unfold passes.
  intros [H|(_ & c1 & H)]%bind_result_Raise.
  { apply for_result_Raise in H as (x & s & _ & H).
    by apply guarded_at_no_raise in H. }
  apply bind_result_Raise in H as [H|(_ & c2 & H)].
  { apply for_result_Raise in H as (x & s & _ & H).
    by apply guarded_at_no_raise in H. }
  apply bind_result_Raise in H as [H|(_ & c3 & H)].
  { apply for_result_Raise in H as (x & s & _ & H).
    rewrite at_run in H. change (result (?s, ?l, ?o)) with o in H.
    by rewrite updateFile_returns in H. }
  apply bind_result_Raise in H as [H|(_ & c4 & H)].
  { apply for_result_Raise in H as (x & s & Hx%elem_of_iter & H).
    rewrite at_run in H. change (result (?s, ?l, ?o)) with o in H.
    apply bind_result_Raise in H as [H|(_ & t & H)].
    - unfold createDir in H. by rewrite guarded_returns in H.
    - exists x, t. by split; [left|]. }
  apply bind_result_Raise in H as [H|(_ & c5 & H)].
  { apply for_result_Raise in H as (x & s & _ & H).
    by apply guarded_at_no_raise in H. }
  apply for_result_Raise in H as (x & s & Hx%elem_of_iter & H).
  rewrite at_run in H. change (result (?s, ?l, ?o)) with o in H.
  exists x, (s !! x). by split; [right|].
Qed.

Lemma dirSync_raise_step {order : SetOrder} (outside : world) (source target : entry)
    (e : exn) :
  result (dirSync outside source target) = Raise e →
  dirCmp outside source target = Raise e ∨
  ∃ dir t, result (dirSync outside (child source dir) t) = Raise e ∧
           ∃ c, source = Some (Dir c).
Proof.
  rewrite dirSync_unfold.
  destruct (dirCmp outside source target) as [d|e'] eqn:Hd.
  - destruct (dirCmp_Ret_inv _ _ _ _ Hd) as (c1 & c2 & -> & -> & _).
    rewrite in_dir_run. change (result (?s, ?l, ?o)) with o.
    intros (dir & t & _ & H)%passes_raise_site. right. eauto.
  - unfold result. simpl. intros [= ->]. by left.
Qed.



(** ** Further properties: the file loops always run *)

(** The three file loops cannot raise: the three directory loops start
    from what the file loops left under each name. *)
Lemma passes_files_first {order : SetOrder} (outside : world) (self : string → M entry unit)
    (source : entry) (d : DirDiff) (c : dir) :
  let dirs : M dir unit :=
    for_ (iter (newDirs d)) (λ dir, at_ dir (createDir;; self dir));;
    for_ (iter (removedDir d)) (λ dir, at_ dir (removeDir outside));;
    for_ (iter (updateDirs d)) (λ dir, at_ dir (self dir)) in
  ∃ c3 l3,
    (∀ name, c3 !! name = after_updateFiles outside source d name (c !! name)) ∧
    passes outside self source d c =
    (final (dirs c3), l3 ++ trace (dirs c3), result (dirs c3)).
Proof.
  intros dirs. unfold passes. fold dirs.
  set (m1 := λ file, copyFile outside (child source file) file).
  set (m3 := λ file, updateFile outside (child source file) file).
  destruct (for_at_spec (iter (newFiles d)) m1 c) as (R1 & _ & F1).
  { apply iter_NoDup. }
  { intros x _. apply guarded_returns. }
  rewrite (bind_returns _ _ _ _ R1).
  set (c1 := final (for_ (iter (newFiles d)) _ c)) in *.
  destruct (for_at_spec (iter (removedFiles d)) (λ _, removeFile) c1)
    as (R2 & _ & F2).
  { apply iter_NoDup. }
  { intros x _. apply guarded_returns. }
  rewrite (bind_returns _ _ _ _ R2).
  set (c2 := final (for_ (iter (removedFiles d)) _ c1)) in *.
  destruct (for_at_spec (iter (updateFiles d)) m3 c2) as (R3 & _ & F3).
  { apply iter_NoDup. }
  { intros x _. apply updateFile_returns. }
  rewrite (bind_returns _ _ _ _ R3).
  set (c3 := final (for_ (iter (updateFiles d)) _ c2)) in *.
  exists c3. eexists. split.
  - intros name. rewrite F3, F2, F1.
    unfold after_updateFiles, after_removedFiles, after_newFiles.
    repeat case_decide; rewrite ?elem_of_iter in *; done.
  - cbv [final trace result fst snd]. rewrite !app_assoc. reflexivity.
Qed.

(** Whatever the directory loops do, a name they do not visit holds what
    the file loops left. *)
Lemma passes_files_spec {order : SetOrder} (outside : world) (self : string → M entry unit)
    (source : entry) (d : DirDiff) (name : string) :
  name ∉ newDirs d → name ∉ removedDir d → name ∉ updateDirs d →
  ∀ c, final (passes outside self source d c) !! name =
       after_updateFiles outside source d name (c !! name).
Proof.
  intros H4 H5 H6 c.
  destruct (passes_files_first outside self source d c) as (c3 & l3 & E3 & ->).
  change (final (?s, ?l, ?o)) with s. rewrite <- E3. generalize c3.
  repeat (apply bind_frame; [|intros _]);
    intros c'; apply for_at_frame; by rewrite elem_of_iter.
Qed.

(** A pass that returned has run all six loops: every name holds what the
    six steps compute. *)
Lemma passes_returned {order : SetOrder} (outside : world) (self : string → M entry unit)
    (source : entry) (d : DirDiff) (c : dir) :
  result (passes outside self source d c) = Ret tt →
  ∀ name, final (passes outside self source d c) !! name =
          after_updateDirs outside self source d name (c !! name).
Proof.
  intros H.
  destruct (passes_files_first outside self source d c) as (c3 & l3 & E3 & E).
  rewrite E in H. change (result (?s, ?l, ?o)) with o in H. clear E.
  destruct (bind_returned _ _ _ _ H) as ([] & R4 & H' & _).
  destruct (bind_returned _ _ _ _ H') as ([] & R5 & R6 & _).
  set (m4 := λ dir, createDir;; self dir) in *.
  set (c4 := final (for_ (iter (newDirs d)) _ c3)) in *.
  set (c5 := final (for_ (iter (removedDir d)) _ c4)) in *.
  pose proof (for_at_result_inv _ m4 _ (iter_NoDup _) R4) as B4.
  destruct (for_at_spec (iter (newDirs d)) m4 c3 (iter_NoDup _) B4) as (_ & _ & F4).
  destruct (for_at_spec (iter (removedDir d)) (λ _, removeDir outside) c4)
    as (_ & _ & F5).
  { apply iter_NoDup. }
  { intros x _. apply guarded_returns. }
  assert (E5 : ∀ name, c5 !! name =
                 after_removedDir outside self source d name (c !! name)).
  { intros name. unfold c5. rewrite F5. fold c4. rewrite F4, E3.
    unfold after_removedDir, after_newDirs.
    repeat case_decide; rewrite ?elem_of_iter in *; done. }
  apply passes_spec.
  - intros x Hx. rewrite <- E3. by apply B4, elem_of_iter.
  - intros x Hx. rewrite <- E5.
    apply (for_at_result_inv _ self _ (iter_NoDup _) R6). by apply elem_of_iter.
Qed.

(** ** Further properties: what one pass does for one name *)

Lemma dirSync_run_dirs {order : SetOrder} (outside : world) (c1 c2 : dir) (d : DirDiff) :
  dirCmp outside (Some (Dir c1)) (Some (Dir c2)) = Ret d →
  dirSync outside (Some (Dir c1)) (Some (Dir c2)) =
  let r := passes outside (λ dir, dirSync outside (c1 !! dir)) (Some (Dir c1)) d c2 in
  (Some (Dir (final r)), trace r, result r).
Proof. intros Hd. by rewrite dirSync_unfold, Hd, in_dir_run. Qed.

Lemma open_rb_is_file (outside : world) (c : dir) (name : string) (b : list byte) :
  open_rb outside (c !! name) = Ret b →
  name ∈ files outside c ∧ (name ∉ subdirs c).
Proof.
  intros Hb. rewrite elem_of_files, elem_of_subdirs.
  destruct (c !! name) as [[[] ?| |t|]|]; simpl in Hb; try done.
  - split; [eauto|]. by intros [? [=]].
  - split; [|by intros [? [=]]]. eexists. split; [done|]. simpl.
    apply bool_decide_eq_true_2. destruct (outside t); [eauto|done].
Qed.

Lemma os_remove_file (outside : world) (n : node) :
  is_file outside n = true → os_remove (Some n) = Ret None.
Proof. by destruct n. Qed.

Lemma copy_followed (outside : world) (src : entry) (base : string) (b : list byte) :
  open_rb outside src = Ret b →
  copy2 outside true src base None = Ret (Some (File true b)).
Proof. intros Hb. unfold copy2, copyfile. rewrite Hb. by destruct src as [[]|]. Qed.

Lemma copy_new (outside : world) (src : entry) (base : string) (b : list byte) :
  open_rb outside src = Ret b →
  ∃ n, copy2 outside false src base None = Ret (Some n) ∧
       open_rb outside (Some n) = Ret b.
Proof.
  intros Hb. unfold copy2, copyfile.
  destruct src as [[[] ?| |t|]|]; simpl in *; try done.
  - injection Hb as ->. eauto.
  - eauto.
Qed.

Lemma copyFile_onto_dir (outside : world) (src : entry) (base : string) (t : dir) :
  ∃ t', final (copyFile outside src base (Some (Dir t))) = Some (Dir t').
Proof.
  rewrite copyFile_run. cbn [copy2].
  destruct (copyfile outside false src (t !! base)); simpl; eauto.
Qed.



(** X9.  When [dirCmp] returns, a symbolic link of the source that leads
    to a file, under a name that is free in the replica, is in the replica
    after the pass as a link to the same target: [copyFile] does not
    follow it, and does not read the file it leads to. *)
Theorem dirSync_copies_links_as_links {order : SetOrder} (outside : world)
    (c1 c2 : dir) (name target : string) :
  returns (dirCmp outside (Some (Dir c1)) (Some (Dir c2))) →
  c1 !! name = Some (Symlink target) → is_Some (outside target) →
  c2 !! name = None →
  ∃ c2',
    final (dirSync outside (Some (Dir c1)) (Some (Dir c2))) = Some (Dir c2') ∧
    c2' !! name = Some (Symlink target).
Proof.
  destruct (dirCmp outside (Some (Dir c1)) (Some (Dir c2))) as [d|] eqn:Hd; [|done].
  intros _ Hn Ht Hm. rewrite (dirSync_run_dirs _ _ _ _ Hd).
  cbv zeta. change (final (?s, ?l, ?o)) with s.
  destruct (dirCmp_membership _ _ _ _ name Hd)
    as (HnF & HrF & HuF & HnD & HrD & HuD).
  assert (Hf1 : name ∈ files outside c1).
  { apply elem_of_files. eexists. split; [done|]. by apply bool_decide_eq_true_2. }
  assert (Hs1 : name ∉ subdirs c1).
  { rewrite elem_of_subdirs, Hn. by intros [? [=]]. }
  destruct (in_none outside _ _ Hm) as [Hf2 Hs2].
  eexists. split; [done|]. rewrite passes_files_spec by tauto.
  unfold after_updateFiles, after_removedFiles, after_newFiles.
  rewrite Hm. settle_decides. rewrite copyFile_run. simpl child. by rewrite Hn.
Qed.

Lemma dirSync_copies_links_as_links_witness :
  returns (dirCmp versions (Some (Dir link_source)) (Some (Dir ∅))) ∧
  link_source !! "current" = Some (Symlink "/data/v2") ∧
  is_Some (versions "/data/v2") ∧
  (∅ : dir) !! "current" = None ∧
  ∃ c2',
    final (dirSync versions (Some (Dir link_source)) (Some (Dir ∅))) = Some (Dir c2') ∧
    c2' !! "current" = Some (Symlink "/data/v2").
Proof.
  assert (H1 : returns (dirCmp versions (Some (Dir link_source)) (Some (Dir ∅)))).
  { vm_compute. exact I. }
  assert (H2 : link_source !! "current" = Some (Symlink "/data/v2")).
  { vm_compute. reflexivity. }
  assert (H3 : is_Some (versions "/data/v2")).
  { eexists. vm_compute. reflexivity. }
  assert (H4 : (∅ : dir) !! "current" = None).
  { vm_compute. reflexivity. }
  split_and!; [exact H1|exact H2|exact H3|exact H4|].
  exact (dirSync_copies_links_as_links versions link_source ∅ "current" "/data/v2"
           H1 H2 H3 H4).
Defined.

(** X10.  When [dirCmp] returns, a file of the replica under a name where
    the source has neither a file nor a directory is gone after the pass,
    also when the pass raises later, in a subdirectory. *)
Theorem dirSync_removes_stale_files {order : SetOrder} (outside : world) (c1 c2 : dir)
    (name : string) :
  returns (dirCmp outside (Some (Dir c1)) (Some (Dir c2))) →
  absent_or_special outside (c1 !! name) = true →
  name ∈ files outside c2 →
  ∃ c2',
    final (dirSync outside (Some (Dir c1)) (Some (Dir c2))) = Some (Dir c2') ∧
    c2' !! name = None.
Proof.
  destruct (dirCmp outside (Some (Dir c1)) (Some (Dir c2))) as [d|] eqn:Hd; [|done].
  intros _ H1 Hf2. rewrite (dirSync_run_dirs _ _ _ _ Hd).
  cbv zeta. change (final (?s, ?l, ?o)) with s.
  destruct (absent_or_special_spec _ _ _ H1) as [Hf1 Hs1].
  destruct (dirCmp_membership _ _ _ _ name Hd)
    as (HnF & HrF & HuF & HnD & HrD & HuD).
  assert (Hs2 : name ∉ subdirs c2).
  { pose proof (files_subdirs_disjoint outside c2). set_solver. }
  eexists. split; [done|]. rewrite passes_files_spec by tauto.
  unfold after_updateFiles, after_removedFiles, after_newFiles.
  settle_decides. apply elem_of_files in Hf2 as (n2 & -> & Hfile).
  by rewrite removeFile_run, (os_remove_file outside).
Qed.

Lemma dirSync_removes_stale_files_witness :
  returns (dirCmp nowhere (Some (Dir mixed_source)) (Some (Dir mixed_replica))) ∧
  absent_or_special nowhere (mixed_source !! "old.txt") = true ∧
  "old.txt" ∈ files nowhere mixed_replica ∧
  ∃ c2',
    final (dirSync nowhere (Some (Dir mixed_source)) (Some (Dir mixed_replica)))
      = Some (Dir c2') ∧
    c2' !! "old.txt" = None.
Proof.
  assert (H1 : returns (dirCmp nowhere (Some (Dir mixed_source))
                          (Some (Dir mixed_replica)))).
  { vm_compute. exact I. }
  assert (H2 : absent_or_special nowhere (mixed_source !! "old.txt") = true).
  { vm_compute. reflexivity. }
  assert (H3 : "old.txt" ∈ files nowhere mixed_replica).
  { apply elem_of_files. eexists. split; vm_compute; reflexivity. }
  split_and!; [exact H1|exact H2|exact H3|].
  exact (dirSync_removes_stale_files nowhere mixed_source mixed_replica "old.txt"
           H1 H2 H3).
Defined.

(** X11.  After a pass that returned, a directory of the replica under a
    name where the source has no directory is gone, with everything below
    it. *)
Theorem dirSync_removes_stale_dirs {order : SetOrder} (outside : world) (c1 c2 : dir)
    (name : string) (t : dir) :
  result (dirSync outside (Some (Dir c1)) (Some (Dir c2))) = Ret tt →
  name ∉ subdirs c1 →
  c2 !! name = Some (Dir t) →
  ∃ c2',
    final (dirSync outside (Some (Dir c1)) (Some (Dir c2))) = Some (Dir c2') ∧
    c2' !! name = None.
Proof.
  destruct (dirCmp outside (Some (Dir c1)) (Some (Dir c2))) as [d|e] eqn:Hd.
  2: { by rewrite dirSync_unfold, Hd. }
  rewrite (dirSync_run_dirs _ _ _ _ Hd). cbv zeta.
  change (final (?s, ?l, ?o)) with s. change (result (?s, ?l, ?o)) with o.
  intros Hres Hs1 Hm.
  destruct (in_subdirs_dir outside _ _ _ Hm) as [Hf2 Hs2].
  destruct (dirCmp_membership _ _ _ _ name Hd)
    as (HnF & HrF & HuF & HnD & HrD & HuD).
  eexists. split; [done|]. rewrite (passes_returned _ _ _ _ _ Hres).
  unfold after_updateDirs, after_removedDir, after_newDirs,
    after_updateFiles, after_removedFiles, after_newFiles.
  rewrite Hm.
  destruct (copyFile_onto_dir outside (child (Some (Dir c1)) name) name t)
    as [t' Ht'].
  destruct (decide (name ∈ newFiles d)); settle_decides;
    rewrite ?Ht', removeDir_run; done.
Qed.

Lemma dirSync_removes_stale_dirs_witness :
  result (dirSync nowhere (Some (Dir scenario_source)) (Some (Dir scenario_replica)))
    = Ret tt ∧
  ("old" ∉ subdirs scenario_source) ∧
  scenario_replica !! "old" = Some (Dir (list_to_map [("y.txt", file "y")])) ∧
  ∃ c2',
    final (dirSync nowhere (Some (Dir scenario_source)) (Some (Dir scenario_replica)))
      = Some (Dir c2') ∧
    c2' !! "old" = None.
Proof.
  assert (H1 : result (dirSync nowhere (Some (Dir scenario_source))
                         (Some (Dir scenario_replica))) = Ret tt).
  { vm_compute. reflexivity. }
  assert (H2 : "old" ∉ subdirs scenario_source).
  { rewrite elem_of_subdirs. intros [c' H]. vm_compute in H. discriminate H. }
  assert (H3 : scenario_replica !! "old" =
               Some (Dir (list_to_map [("y.txt", file "y")]))).
  { vm_compute. reflexivity. }
  split_and!; [exact H1|exact H2|exact H3|].
  exact (dirSync_removes_stale_dirs nowhere scenario_source scenario_replica "old"
           _ H1 H2 H3).
Defined.

(** X12.  After a pass that returned, a source directory of directories
    and readable files, under a name that was free or a file in the
    replica, is in the replica as a directory with the same names and
    kinds and files of the same MD5. *)
Theorem dirSync_creates_directories {order : SetOrder} (outside : world) (c1 c2 : dir)
    (name : string) (s : dir) :
  result (dirSync outside (Some (Dir c1)) (Some (Dir c2))) = Ret tt →
  c1 !! name = Some (Dir s) → regular (Dir s) = true →
  c2 !! name = None ∨ name ∈ files outside c2 →
  ∃ c2' t',
    final (dirSync outside (Some (Dir c1)) (Some (Dir c2))) = Some (Dir c2') ∧
    c2' !! name = Some (Dir t') ∧
    mirrors (Dir s) (Dir t').
Proof.
  destruct (dirCmp outside (Some (Dir c1)) (Some (Dir c2))) as [d|e] eqn:Hd.
  2: { by rewrite dirSync_unfold, Hd. }
  rewrite (dirSync_run_dirs _ _ _ _ Hd). cbv zeta.
  change (final (?s, ?l, ?o)) with s. change (result (?s, ?l, ?o)) with o.
  intros Hres Hn Hreg Hc2.
  destruct (in_subdirs_dir outside _ _ _ Hn) as [Hf1 Hs1].
  destruct (dirCmp_membership _ _ _ _ name Hd)
    as (HnF & HrF & HuF & HnD & HrD & HuD).
  assert (Hs2 : name ∉ subdirs c2).
  { destruct Hc2 as [Hm|Hf2]; [by apply (in_none outside)|].
    pose proof (files_subdirs_disjoint outside c2). set_solver. }
  destruct (dirSync_mirrors outside (Dir s) s eq_refl ∅ Hreg regular_empty
              (no_clash_empty s)) as (t' & Hfin & _ & Hmir).
  eexists _, t'. split; [done|]. split; [|done].
  rewrite (passes_returned _ _ _ _ _ Hres).
  unfold after_updateDirs, after_removedDir, after_newDirs,
    after_updateFiles, after_removedFiles, after_newFiles.
  destruct Hc2 as [Hm|Hf2].
  - destruct (in_none outside _ _ Hm) as [Hf2 _]. rewrite Hm. settle_decides.
    rewrite new_dir_run. change (final (?s, ?l, ?o)) with s. by rewrite Hn.
  - settle_decides. destruct (proj1 (elem_of_files _ _ _) Hf2) as (n2 & -> & Hfile).
    rewrite removeFile_run, (os_remove_file outside) by done.
    change (final (?s, ?l, ?o)) with s.
    rewrite new_dir_run. change (final (?s, ?l, ?o)) with s. by rewrite Hn.
Qed.

Lemma dirSync_creates_directories_witness :
  result (dirSync nowhere (Some (Dir scenario_source)) (Some (Dir scenario_replica)))
    = Ret tt ∧
  scenario_source !! "b" = Some (Dir (list_to_map [("c.txt", file "world")])) ∧
  regular (Dir (list_to_map [("c.txt", file "world")])) = true ∧
  (scenario_replica !! "b" = None ∨ "b" ∈ files nowhere scenario_replica) ∧
  ∃ c2' t',
    final (dirSync nowhere (Some (Dir scenario_source)) (Some (Dir scenario_replica)))
      = Some (Dir c2') ∧
    c2' !! "b" = Some (Dir t') ∧
    mirrors (Dir (list_to_map [("c.txt", file "world")])) (Dir t').
Proof.
  assert (H1 : result (dirSync nowhere (Some (Dir scenario_source))
                         (Some (Dir scenario_replica))) = Ret tt).
  { vm_compute. reflexivity. }
  assert (H2 : scenario_source !! "b" =
               Some (Dir (list_to_map [("c.txt", file "world")]))).
  { vm_compute. reflexivity. }
  assert (H3 : regular (Dir (list_to_map [("c.txt", file "world")])) = true).
  { vm_compute. reflexivity. }
  assert (H4 : scenario_replica !! "b" = None ∨ "b" ∈ files nowhere scenario_replica).
  { left. vm_compute. reflexivity. }
  split_and!; [exact H1|exact H2|exact H3|exact H4|].
  exact (dirSync_creates_directories nowhere scenario_source scenario_replica "b"
           _ H1 H2 H3 H4).
Defined.

(** ** Further properties: replica entries that are neither file nor directory *)

Lemma dirSync_not_a_directory {order : SetOrder} (outside : world) (source : entry)
    (n : node) :
  is_dir n = false →
  ∃ e, dirSync outside source (Some n) = (Some n, [], Raise e).
Proof.
  intros Hn. rewrite dirSync_unfold. unfold dirCmp.
  destruct (iterdir outside source); simpl; [|eauto].
  destruct n as [| |t|]; simpl; try done; eauto.
  destruct (outside t); eauto.
Qed.

Lemma copyFile_blocked (outside : world) (src : entry) (base : string) (n : node) :
  is_file outside n = false → is_dir n = false →
  final (copyFile outside src base (Some n)) = Some n.
Proof.
  intros Hf Hd. rewrite copyFile_run.
  assert (H : ∃ e, copy2 outside false src base (Some n) = Raise e).
  { unfold copy2, copyfile.
    destruct n as [| |t|]; try done;
      destruct src as [[[] ?| |t'|]|]; simpl; eauto;
      destruct (outside t') as [[[] ?]|]; simpl; eauto. }
  destruct H as [e ->]. done.
Qed.

Lemma new_dir_blocked {order : SetOrder} (outside : world) (source : entry) (n : node) :
  is_dir n = false →
  final ((createDir;; dirSync outside source) (Some n)) = Some n ∧
  ∃ e, result ((createDir;; dirSync outside source) (Some n)) = Raise e.
Proof.
  intros Hd. rewrite bind_run, createDir_run. cbn [os_mkdir].
  destruct (dirSync_not_a_directory outside source n Hd) as [e ->]. eauto.
Qed.

(** X13.  An entry of the replica directory that is neither a file nor a
    directory (a socket, a dangling link) is still there, unchanged,
    after [dirSync]: whatever the source holds under its name, and
    however the pass ends. *)
Theorem special_replica_entries_survive {order : SetOrder} (outside : world)
    (source : entry) (c2 : dir) (name : string) (n : node) :
  c2 !! name = Some n → is_file outside n = false → is_dir n = false →
  ∃ c2',
    final (dirSync outside source (Some (Dir c2))) = Some (Dir c2') ∧
    c2' !! name = Some n.
Proof.
  intros Hn Hfile Hdir. rewrite dirSync_unfold.
  destruct (dirCmp outside source (Some (Dir c2))) as [d|e] eqn:Hd; [|by exists c2].
  destruct (dirCmp_Ret_inv _ _ _ _ Hd) as (c1 & ? & -> & [= <-] & _).
  rewrite in_dir_run. change (final (?s, ?l, ?o)) with s.
  eexists. split; [done|].
  destruct (dirCmp_membership _ _ _ _ name Hd)
    as (HnF & HrF & HuF & HnD & HrD & HuD).
  assert (Hf2 : name ∉ files outside c2).
  { rewrite elem_of_files, Hn. intros (? & [= <-] & ?). congruence. }
  assert (Hs2 : name ∉ subdirs c2).
  { rewrite elem_of_subdirs, Hn. intros (? & [= ->]). done. }
  revert Hn. generalize c2. unfold passes.
  repeat (apply bind_keeps; [|intros _]); intros c; apply for_at_keeps;
    rewrite elem_of_iter; intros Hin; try tauto.
  - by apply copyFile_blocked.
  - by apply new_dir_blocked.
Qed.

Lemma special_replica_entries_survive_witness :
  blocked_replica !! "x" = Some Socket ∧
  is_file nowhere Socket = false ∧ is_dir Socket = false ∧
  ∃ c2',
    final (dirSync nowhere (Some (Dir blocked_source)) (Some (Dir blocked_replica)))
      = Some (Dir c2') ∧
    c2' !! "x" = Some Socket.
Proof.
  assert (H1 : blocked_replica !! "x" = Some Socket).
  { vm_compute. reflexivity. }
  split_and!; [exact H1|reflexivity|reflexivity|].
  exact (special_replica_entries_survive nowhere (Some (Dir blocked_source))
           blocked_replica "x" Socket H1 eq_refl eq_refl).
Defined.

(** X14.  When [dirCmp] returns and the source has a directory under a
    name where the replica has an entry that is neither a file nor a
    directory, the pass raises: [createDir] fails and logs it, and the
    recursive call that follows cannot list the entry. *)
Theorem special_entry_blocks_directory {order : SetOrder} (outside : world)
    (c1 c2 : dir) (name : string) (s : dir) (n : node) :
  returns (dirCmp outside (Some (Dir c1)) (Some (Dir c2))) →
  c1 !! name = Some (Dir s) →
  c2 !! name = Some n → is_file outside n = false → is_dir n = false →
  ∃ e, result (dirSync outside (Some (Dir c1)) (Some (Dir c2))) = Raise e.
Proof.
  destruct (dirCmp outside (Some (Dir c1)) (Some (Dir c2))) as [d|] eqn:Hd; [|done].
  intros _ Hs Hn Hfile Hdir. rewrite (dirSync_run_dirs _ _ _ _ Hd). cbv zeta.
  change (result (?s, ?l, ?o)) with o.
  destruct (in_subdirs_dir outside _ _ _ Hs) as [Hf1 Hs1].
  destruct (dirCmp_membership _ _ _ _ name Hd)
    as (HnF & HrF & HuF & HnD & HrD & HuD).
  assert (Hf2 : name ∉ files outside c2).
  { rewrite elem_of_files, Hn. intros (? & [= <-] & ?). congruence. }
  assert (Hs2 : name ∉ subdirs c2).
  { rewrite elem_of_subdirs, Hn. intros (? & [= ->]). done. }
  destruct (passes_files_first outside (λ dir, dirSync outside (c1 !! dir))
              (Some (Dir c1)) d c2) as (c3 & l3 & E3 & ->).
  change (result (?s, ?l, ?o)) with o.
  assert (H3 : c3 !! name = Some n).
  { rewrite E3, Hn.
    unfold after_updateFiles, after_removedFiles, after_newFiles.
    by settle_decides. }
  destruct (for_at_raises (iter (newDirs d))
              (λ dir, createDir;; dirSync outside (c1 !! dir)) c3 name)
    as [e He].
  { apply iter_NoDup. }
  { apply elem_of_iter. tauto. }
  { rewrite H3. by apply new_dir_blocked. }
  exists e. rewrite bind_run.
  destruct (for_ (iter (newDirs d)) _ c3) as [[c4 l4] o4].
  change (o4 = Raise e) in He. by subst o4.
Qed.

Lemma special_entry_blocks_directory_witness :
  returns (dirCmp nowhere (Some (Dir blocked_source)) (Some (Dir blocked_replica))) ∧
  blocked_source !! "x" = Some (Dir ∅) ∧
  blocked_replica !! "x" = Some Socket ∧
  is_file nowhere Socket = false ∧ is_dir Socket = false ∧
  ∃ e, result (dirSync nowhere (Some (Dir blocked_source))
                 (Some (Dir blocked_replica))) = Raise e.
Proof.
  assert (H1 : returns (dirCmp nowhere (Some (Dir blocked_source))
                          (Some (Dir blocked_replica)))).
  { vm_compute. exact I. }
  assert (H2 : blocked_source !! "x" = Some (Dir ∅)).
  { vm_compute. reflexivity. }
  assert (H3 : blocked_replica !! "x" = Some Socket).
  { vm_compute. reflexivity. }
  split_and!; [exact H1|exact H2|exact H3|reflexivity|reflexivity|].
  exact (special_entry_blocks_directory nowhere blocked_source blocked_replica
           "x" ∅ Socket H1 H2 H3 eq_refl eq_refl).
Defined.

(** ** Further properties: every change is logged *)

Lemma unlogged_under (name : string) (l : list event) :
  unlogged name (under name <$> l) → l = [].
Proof.
  destruct l as [|ev l]; [done|]. intros H. apply Forall_cons in H as [H _].
  by destruct ev.
Qed.

Lemma for_at_unlogged (xs : list string) (m : string → M entry unit) (name : string) :
  (∀ t, trace (m name t) = [] → final (m name t) = t) →
  ∀ c, unlogged name (trace (for_ xs (λ x, at_ x (m x)) c)) →
       final (for_ xs (λ x, at_ x (m x)) c) !! name = c !! name.
Proof.
  intros Hm. induction xs as [|x xs IH]; intros c; [done|].
  cbn [for_]. rewrite bind_run, at_run.
  assert (Hx : unlogged name (under x <$> trace (m x (c !! x))) →
               put x (final (m x (c !! x))) c !! name = c !! name).
  { intros H. rewrite lookup_put. case_decide; [|done]. subst x.
    apply Hm. by apply (unlogged_under name). }
  destruct (result (m x (c !! x))) as [[]|e]; [|done].
  specialize (IH (put x (final (m x (c !! x))) c)).
  destruct (for_ xs _ _) as [[c' l'] o']. unfold unlogged.
  change (trace (?s, ?l, ?o)) with l. change (final (?s, ?l, ?o)) with s in *.
  change (trace (?s, ?l, ?o)) with l in IH.
  rewrite Forall_app. intros [H1 H2]. rewrite IH by done. by apply Hx.
Qed.

Lemma bind_unlogged {A B} (m : M dir A) (k : A → M dir B) (name : string) :
  (∀ c, unlogged name (trace (m c)) → final (m c) !! name = c !! name) →
  (∀ a c, unlogged name (trace (k a c)) → final (k a c) !! name = c !! name) →
  ∀ c, unlogged name (trace ((m ≫= k) c)) → final ((m ≫= k) c) !! name = c !! name.
Proof.
  intros Hm Hk c. rewrite bind_run. specialize (Hm c).
  destruct (m c) as [[c1 l1] [a|e]]; [|done].
  specialize (Hk a c1). destruct (k a c1) as [[c2 l2] o]. unfold unlogged in *.
  change (trace (?s, ?l, ?o)) with l in *. change (final (?s, ?l, ?o)) with s in *.
  rewrite Forall_app. intros [H1 H2]. rewrite Hk by done. by apply Hm.
Qed.

Lemma guarded_logs (k : kind) (f : entry → outcome entry) (t : entry) :
  trace (try_except (call f;; log (Done k [])) (λ e, log (Failed k [] e)) t) ≠ [].
Proof. rewrite guarded_call_run. by destruct (f t). Qed.

Lemma updateFile_logs (outside : world) (source : entry) (base : string) (t : entry) :
  trace (updateFile outside source base t) ≠ [].
Proof.
  rewrite updateFile_run.
  destruct (os_remove t); [destruct (copy2 _ _ _ _ _)|]; done.
Qed.

Lemma new_dir_logs (m : M entry unit) (t : entry) :
  trace ((createDir;; m) t) ≠ [].
Proof.
  rewrite bind_run, createDir_run.
  destruct (os_mkdir t) as [t'|e]; [destruct (m t') as [[? ?] ?]|destruct (m t) as [[? ?] ?]];
    done.
Qed.

Lemma passes_unlogged {order : SetOrder} (outside : world) (self : string → M entry unit)
    (source : entry) (d : DirDiff) (name : string) :
  (∀ t, trace (self name t) = [] → final (self name t) = t) →
  ∀ c, unlogged name (trace (passes outside self source d c)) →
       final (passes outside self source d c) !! name = c !! name.
Proof.
  intros Hself. unfold passes.
  repeat (apply bind_unlogged; [|intros _]); intros c; apply for_at_unlogged;
    intros t H; try done.
  - by apply guarded_logs in H.
  - by apply guarded_logs in H.
  - by apply updateFile_logs in H.
  - by apply new_dir_logs in H.
  - by apply guarded_logs in H.
  - by apply Hself.
Qed.

Lemma dirSync_silent {order : SetOrder} (outside : world) (source target : entry) :
  trace (dirSync outside source target) = [] →
  final (dirSync outside source target) = target.
Proof.
  assert (Hstep : ∀ source,
            (∀ dir t, trace (dirSync outside (child source dir) t) = [] →
                      final (dirSync outside (child source dir) t) = t) →
            ∀ target, trace (dirSync outside source target) = [] →
                      final (dirSync outside source target) = target).
  { clear. intros source IH target. rewrite dirSync_unfold.
    destruct (dirCmp outside source target) as [d|e] eqn:Hd; [|done].
    destruct (dirCmp_Ret_inv _ _ _ _ Hd) as (c1 & c2 & -> & -> & _).
    rewrite in_dir_run. change (trace (?s, ?l, ?o)) with l.
    change (final (?s, ?l, ?o)) with s. intros H. do 2 f_equal.
    apply map_eq. intros name. apply passes_unlogged.
    - apply IH.
    - rewrite H. constructor. }
  assert (Hnone : ∀ target, trace (dirSync outside None target) = [] →
                            final (dirSync outside None target) = target).
  { intros t. by rewrite dirSync_unfold. }
  destruct source as [n|]; [|apply Hnone]. revert target.
  induction n as [r b|c IH|l|] using node_tree_ind; apply Hstep;
    intros dir t; simpl; try apply Hnone.
  destruct (c !! dir) as [n|] eqn:Hn; [by apply (IH dir)|apply Hnone].
Qed.

(** X15.  [dirSync] changes nothing without logging it: a pass that logs
    no record leaves the replica as it was, and a direct child of the
    replica for which no record names a path through it is, after the
    pass, what it was before, with everything below it; however the pass
    ends. *)
Theorem dirSync_changes_are_logged {order : SetOrder} (outside : world)
    (source target : entry) :
  (trace (dirSync outside source target) = [] →
   final (dirSync outside source target) = target) ∧
  (∀ name,
     unlogged name (trace (dirSync outside source target)) →
     child (final (dirSync outside source target)) name = child target name).
Proof.
  split; [apply dirSync_silent|].
  intros name. rewrite dirSync_unfold.
  destruct (dirCmp outside source target) as [d|e] eqn:Hd; [|done].
  destruct (dirCmp_Ret_inv _ _ _ _ Hd) as (c1 & c2 & -> & -> & _).
  rewrite in_dir_run. change (trace (?s, ?l, ?o)) with l.
  change (final (?s, ?l, ?o)) with s. simpl child.
  apply passes_unlogged. apply dirSync_silent.
Qed.

Lemma dirSync_changes_are_logged_witness :
  unlogged "same.txt"
    (trace (dirSync nowhere (Some (Dir mixed_source)) (Some (Dir mixed_replica)))) ∧
  child (final (dirSync nowhere (Some (Dir mixed_source)) (Some (Dir mixed_replica))))
    "same.txt" = child (Some (Dir mixed_replica)) "same.txt".
Proof.
  assert (H : unlogged "same.txt"
    (trace (dirSync nowhere (Some (Dir mixed_source)) (Some (Dir mixed_replica))))).
  { apply (bool_decide_unpack _). vm_compute. exact I. }
  split; [exact H|].
  exact (proj2 (dirSync_changes_are_logged nowhere (Some (Dir mixed_source))
                  (Some (Dir mixed_replica))) "same.txt" H).
Defined.

(** ** Further properties: one record for each call *)

Lemma at_this_level_app (l1 l2 : list event) :
  at_this_level (l1 ++ l2) = at_this_level l1 ++ at_this_level l2.
Proof. apply omap_app. Qed.

Lemma at_this_level_deeper (x : string) (l : list event) :
  Forall (λ ev, ev_path ev ≠ []) l → at_this_level (under x <$> l) = [].
Proof.
  induction 1 as [|ev l Hev _ IH]; [done|].
  cbn. destruct ev as [k [|y p]|k [|y p] e]; done.
Qed.

Lemma for_at_level (xs : list string) (m : string → M entry unit) (c : dir)
    (f : string → list (kind * string)) :
  NoDup xs →
  result (for_ xs (λ x, at_ x (m x)) c) = Ret tt →
  (∀ x t, at_this_level (under x <$> trace (m x t)) = f x) →
  at_this_level (trace (for_ xs (λ x, at_ x (m x)) c)) = mjoin (f <$> xs).
Proof.
  intros Hnd Hres Hf.
  destruct (for_at_spec xs m c Hnd) as (_ & -> & _).
  { by apply for_at_result_inv. }
  clear Hnd Hres. induction xs as [|x xs IH]; [done|].
  rewrite !fmap_cons.
  change (at_this_level ((under x <$> trace (m x (c !! x))) ++
            mjoin ((λ x, under x <$> trace (m x (c !! x))) <$> xs)) =
          f x ++ mjoin (f <$> xs)).
  by rewrite at_this_level_app, Hf, IH.
Qed.

Lemma mjoin_planned (k : kind) (xs : list string) :
  mjoin ((λ x, [(k, x)]) <$> xs) = planned k xs.
Proof. induction xs as [|x xs IH]; [done|]. cbn. by f_equal. Qed.

Lemma guarded_level (k : kind) (f : entry → outcome entry) (x : string) (t : entry) :
  at_this_level
    (under x <$> trace (try_except (call f;; log (Done k []))
                          (λ e, log (Failed k [] e)) t)) = [(k, x)].
Proof. rewrite guarded_call_run. by destruct (f t). Qed.

Lemma passes_level {order : SetOrder} (outside : world) (self : string → M entry unit)
    (source : entry) (d : DirDiff) (c : dir) :
  (∀ x t, Forall (λ ev, ev_path ev ≠ []) (trace (self x t))) →
  result (passes outside self source d c) = Ret tt →
  at_this_level (trace (passes outside self source d c)) =
    planned Created (iter (newFiles d)) ++
    planned Removed (iter (removedFiles d)) ++
    planned Updated (iter (updateFiles d)) ++
    planned DirCreated (iter (newDirs d)) ++
    planned DirRemoved (iter (removedDir d)).
Proof.
  intros Hself. unfold passes.
  intros ([] & R1 & H & ->)%bind_returned. revert H.
  intros ([] & R2 & H & ->)%bind_returned. revert H.
  intros ([] & R3 & H & ->)%bind_returned. revert H.
  intros ([] & R4 & H & ->)%bind_returned. revert H.
  intros ([] & R5 & R6 & ->)%bind_returned.
  rewrite !at_this_level_app.
  rewrite (for_at_level _ _ _ (λ x, [(Created, x)]) (iter_NoDup _) R1).
  2: { intros x t. apply guarded_level. }
  rewrite (for_at_level _ _ _ (λ x, [(Removed, x)]) (iter_NoDup _) R2).
  2: { intros x t. apply guarded_level. }
  rewrite (for_at_level _ _ _ (λ x, [(Updated, x)]) (iter_NoDup _) R3).
  2: { intros x t. rewrite updateFile_run.
       destruct (os_remove t); [destruct (copy2 _ _ _ _ _)|]; done. }
  rewrite (for_at_level _ _ _ (λ x, [(DirCreated, x)]) (iter_NoDup _) R4).
  2: { intros x t. rewrite bind_run, createDir_run.
       destruct (os_mkdir t) as [t'|e].
       - specialize (Hself x t'). destruct (self x t') as [[? l] ?].
         change (Forall (λ ev, ev_path ev ≠ []) l) in Hself.
         change ((DirCreated, x) :: at_this_level (under x <$> l)
                 = [(DirCreated, x)]).
         by rewrite (at_this_level_deeper x l Hself).
       - specialize (Hself x t). destruct (self x t) as [[? l] ?].
         change (Forall (λ ev, ev_path ev ≠ []) l) in Hself.
         change ((DirCreated, x) :: at_this_level (under x <$> l)
                 = [(DirCreated, x)]).
         by rewrite (at_this_level_deeper x l Hself). }
  rewrite (for_at_level _ _ _ (λ x, [(DirRemoved, x)]) (iter_NoDup _) R5).
  2: { intros x t. apply guarded_level. }
  rewrite (for_at_level _ _ _ (λ x, []) (iter_NoDup _) R6).
  2: { intros x t. by apply at_this_level_deeper. }
  rewrite !mjoin_planned, (mjoin_nils (λ _, [])) by done.
  by rewrite app_nil_r.
Qed.

(** X16.  In a pass that returned, the records for the direct children
    are, in this order, one for each new file (copy), one for each
    removed file (removal), one for each file to update (update), one for
    each new directory (creation) and one for each removed directory
    (removal), and no other: each call of an apply function logs one
    record, as information when it succeeded and as an error when it
    failed. *)
Theorem dirSync_logs_each_call_once {order : SetOrder} (outside : world)
    (source target : entry) (d : DirDiff) :
  dirCmp outside source target = Ret d →
  result (dirSync outside source target) = Ret tt →
  at_this_level (trace (dirSync outside source target)) =
    planned Created (iter (newFiles d)) ++
    planned Removed (iter (removedFiles d)) ++
    planned Updated (iter (updateFiles d)) ++
    planned DirCreated (iter (newDirs d)) ++
    planned DirRemoved (iter (removedDir d)).
Proof.
  intros Hd. rewrite dirSync_unfold, Hd.
  destruct (dirCmp_Ret_inv _ _ _ _ Hd) as (c1 & c2 & -> & -> & _).
  rewrite in_dir_run. change (result (?s, ?l, ?o)) with o.
  change (trace (?s, ?l, ?o)) with l.
  apply passes_level. intros x t. apply dirSync_trace_paths.
Qed.

Lemma dirSync_logs_each_call_once_witness :
  dirCmp nowhere (Some (Dir scenario_source)) (Some (Dir scenario_replica)) =
    Ret {| newFiles := ∅; newDirs := {["b"]}; updateFiles := {["a.txt"]};
           updateDirs := ∅; removedFiles := {["stale.txt"]};
           removedDir := {["old"]} |} ∧
  result (dirSync nowhere (Some (Dir scenario_source)) (Some (Dir scenario_replica)))
    = Ret tt ∧
  at_this_level
    (trace (dirSync nowhere (Some (Dir scenario_source)) (Some (Dir scenario_replica)))) =
    planned Created (iter ∅) ++
    planned Removed (iter {["stale.txt"]}) ++
    planned Updated (iter {["a.txt"]}) ++
    planned DirCreated (iter {["b"]}) ++
    planned DirRemoved (iter {["old"]}).
Proof.
  assert (H1 : dirCmp nowhere (Some (Dir scenario_source)) (Some (Dir scenario_replica)) =
    Ret {| newFiles := ∅; newDirs := {["b"]}; updateFiles := {["a.txt"]};
           updateDirs := ∅; removedFiles := {["stale.txt"]};
           removedDir := {["old"]} |}).
  { vm_compute. reflexivity. }
  assert (H2 : result (dirSync nowhere (Some (Dir scenario_source))
                         (Some (Dir scenario_replica))) = Ret tt).
  { vm_compute. reflexivity. }
  split; [exact H1|]. split; [exact H2|].
  exact (dirSync_logs_each_call_once nowhere _ _ _ H1 H2).
Defined.

(** ** Further properties: two passes *)

Lemma cleared_pointwise (c1 c2 : dir) :
  (∀ name, cleared (c1 !! name) (c2 !! name)) →
  regular (Dir c2) = true ∧ no_clash (Dir c1) (Dir c2) = true.
Proof.
  intros H. split.
  - cbn [regular]. apply all_children_spec. intros name n Hn.
    specialize (H name). rewrite Hn in H. apply H.
  - cbn [no_clash]. apply all_children_spec. intros name n1 Hn1.
    specialize (H name). rewrite Hn1 in H.
    destruct (c2 !! name) as [n2|]; [|by destruct n1].
    destruct H as [_ H]. destruct n1, n2; done.
Qed.

(** On trees of directories and readable files a pass returns, and leaves
    no directory of the replica under the name of a source file. *)
Lemma dirSync_clears {order : SetOrder} (outside : world) (n1 : node) :
  ∀ c1, n1 = Dir c1 →
  ∀ c2, regular (Dir c1) = true → regular (Dir c2) = true →
  ∃ c2', final (dirSync outside (Some (Dir c1)) (Some (Dir c2))) = Some (Dir c2') ∧
         result (dirSync outside (Some (Dir c1)) (Some (Dir c2))) = Ret tt ∧
         regular (Dir c2') = true ∧
         no_clash (Dir c1) (Dir c2') = true.
Proof.
  induction n1 as [r b|c IH|l|] using node_tree_ind; intros c1 [=]; subst c1.
  intros c2 Hr1 Hr2.
  destruct (comparable_returns outside c c2) as [d Hd];
    [by apply regular_comparable|].
  rewrite dirSync_unfold, Hd, in_dir_run.
  change (final (?s, ?l, ?o)) with s. change (result (?s, ?l, ?o)) with o.
  set (self := λ dir, dirSync outside (child (Some (Dir c)) dir)).
  assert (Hnew : ∀ x s, c !! x = Some (Dir s) →
            ∃ t', final ((createDir;; self x) None) = Some (Dir t') ∧
                  result ((createDir;; self x) None) = Ret tt ∧
                  regular (Dir t') = true ∧ no_clash (Dir s) (Dir t') = true).
  { intros x s Hx. rewrite new_dir_run.
    change (final (?s, ?l, ?o)) with s. change (result (?s, ?l, ?o)) with o.
    unfold self. simpl child. rewrite Hx.
    apply (IH x (Dir s) Hx s eq_refl ∅).
    - exact (regular_child _ _ _ Hr1 Hx).
    - apply regular_empty. }
  assert (Hboth : ∀ x s t, c !! x = Some (Dir s) → c2 !! x = Some (Dir t) →
            ∃ t', final (self x (Some (Dir t))) = Some (Dir t') ∧
                  result (self x (Some (Dir t))) = Ret tt ∧
                  regular (Dir t') = true ∧ no_clash (Dir s) (Dir t') = true).
  { intros x s t Hx Hx2. unfold self. simpl child. rewrite Hx.
    apply (IH x (Dir s) Hx s eq_refl t).
    - exact (regular_child _ _ _ Hr1 Hx).
    - exact (regular_child _ _ _ Hr2 Hx2). }
  assert (Hsteps : ∀ name,
            (name ∈ newDirs d →
               result ((createDir;; self name)
                 (after_updateFiles outside (Some (Dir c)) d name (c2 !! name)))
               = Ret tt) ∧
            (name ∈ updateDirs d →
               result (self name
                 (after_removedDir outside self (Some (Dir c)) d name (c2 !! name)))
               = Ret tt) ∧
            cleared (c !! name)
              (after_updateDirs outside self (Some (Dir c)) d name (c2 !! name))).
  { intros name.
    destruct (dirCmp_membership _ _ _ _ name Hd)
      as (HnF & HrF & HuF & HnD & HrD & HuD).
    unfold after_updateDirs, after_removedDir, after_newDirs,
      after_updateFiles, after_removedFiles, after_newFiles.
    destruct (regular_lookup c name Hr1) as [Hn|[[b1 Hn]|(s & Hn & Hrs)]];
      destruct (regular_lookup c2 name Hr2) as [Hm|[[b2 Hm]|(t & Hm & Hrt)]].
    - (* absent on both sides *)
      destruct (in_none outside _ _ Hn), (in_none outside _ _ Hm).
      rewrite Hn, Hm. split_and!; [tauto..|]. settle_decides. done.
    - (* a file to remove *)
      destruct (in_none outside _ _ Hn), (in_files_file outside _ _ _ _ Hm).
      rewrite Hn, Hm. split_and!; [tauto..|]. settle_decides.
      rewrite removeFile_run. done.
    - (* a directory to remove *)
      destruct (in_none outside _ _ Hn), (in_subdirs_dir outside _ _ _ Hm).
      rewrite Hn, Hm. split_and!; [tauto..|]. settle_decides.
      rewrite removeDir_run. done.
    - (* a file to copy *)
      destruct (in_files_file outside _ _ _ _ Hn), (in_none outside _ _ Hm).
      rewrite Hn, Hm. split_and!; [tauto..|]. settle_decides.
      rewrite copyFile_run. simpl child. rewrite Hn. done.
    - (* a file on both sides *)
      destruct (in_files_file outside _ _ _ _ Hn),
        (in_files_file outside _ _ _ _ Hm).
      rewrite Hn, Hm, fileCmp_files in HuF. rewrite Hn, Hm.
      split_and!; [tauto..|].
      destruct (decide (MD5.hash b1 = MD5.hash b2)) as [Heq|Hne].
      + rewrite bool_decide_eq_true_2 in HuF by done. settle_decides. done.
      + rewrite bool_decide_eq_false_2 in HuF by done. settle_decides.
        rewrite updateFile_run. simpl child. rewrite Hn. done.
    - (* a file over a directory: the copy goes into the directory, which
         the pass then removes *)
      destruct (in_files_file outside _ _ _ _ Hn),
        (in_subdirs_dir outside _ _ _ Hm).
      rewrite Hn, Hm. split_and!; [tauto..|]. settle_decides.
      destruct (copyFile_onto_dir outside (child (Some (Dir c)) name) name t)
        as [t' ->].
      rewrite removeDir_run. done.
    - (* a directory to create *)
      destruct (in_subdirs_dir outside _ _ _ Hn), (in_none outside _ _ Hm).
      destruct (Hnew name s Hn) as (t' & Hfin & Hres & Hreg & Hnc).
      rewrite Hn, Hm. settle_decides. split_and!; [done|tauto|].
      by rewrite Hfin.
    - (* a directory in place of a file *)
      destruct (in_subdirs_dir outside _ _ _ Hn),
        (in_files_file outside _ _ _ _ Hm).
      destruct (Hnew name s Hn) as (t' & Hfin & Hres & Hreg & Hnc).
      rewrite Hn, Hm. settle_decides. rewrite removeFile_run.
      cbn [os_remove]. change (final (?s, ?l, ?o)) with s.
      split_and!; [done|tauto|]. by rewrite Hfin.
    - (* a directory on both sides *)
      destruct (in_subdirs_dir outside _ _ _ Hn),
        (in_subdirs_dir outside _ _ _ Hm).
      destruct (Hboth name s t Hn Hm) as (t' & Hfin & Hres & Hreg & Hnc).
      rewrite Hn, Hm. settle_decides. split_and!; [tauto|done|].
      by rewrite Hfin. }
  destruct (passes_spec outside self (Some (Dir c)) d c2) as [Hres Hfin].
  { intros x Hx. by apply Hsteps. }
  { intros x Hx. by apply Hsteps. }
  eexists. split_and!; [done..| |];
    apply (cleared_pointwise c); intros name; rewrite Hfin; apply Hsteps.
Qed.

Lemma two_passes_mirror {order : SetOrder} (outside : world) (c1 c2 : dir) :
  regular (Dir c1) = true → regular (Dir c2) = true →
  ∃ c2' c2'' l1 l2,
    dirSync outside (Some (Dir c1)) (Some (Dir c2)) = (Some (Dir c2'), l1, Ret tt) ∧
    dirSync outside (Some (Dir c1)) (Some (Dir c2')) = (Some (Dir c2''), l2, Ret tt) ∧
    mirrors (Dir c1) (Dir c2'') ∧
    synced outside c1 c2''.
Proof.
  intros Hr1 Hr2.
  destruct (dirSync_clears outside (Dir c1) c1 eq_refl c2 Hr1 Hr2)
    as (c2' & Hf1 & Hres1 & Hr2' & Hnc).
  destruct (dirSync_mirrors outside (Dir c1) c1 eq_refl c2' Hr1 Hr2' Hnc)
    as (c2'' & Hf2 & Hres2 & Hmir).
  exists c2', c2''.
  destruct (dirSync outside (Some (Dir c1)) (Some (Dir c2))) as [[t1 l1] o1].
  destruct (dirSync outside (Some (Dir c1)) (Some (Dir c2'))) as [[t2 l2] o2].
  cbv [final result trace fst snd] in *. subst t1 o1 t2 o2.
  exists l1, l2. split_and!; [done..|]. by eapply mirrors_synced.
Qed.



(** ** Further properties: the loop of [main] *)

Lemma turns_idle {order : SetOrder} (outside : world) (c1 c2 : dir) (n : nat) :
  synced outside c1 c2 →
  turns outside (replicate n (Some (Dir c1))) (Some (Dir c2)) =
  (Some (Dir c2), mjoin (replicate n [Sync_starting; Sync_ended]), Ret tt).
Proof.
  intros Hs. induction n as [|n IH]; [done|].
  cbn [replicate turns]. unfold turn. rewrite (synced_noop _ _ _ Hs), IH.
  reflexivity.
Qed.



Lemma turns_raised {order : SetOrder} (outside : world) (sources : list entry)
    (target target' : entry) (l : list record) (e : exn) :
  turns outside sources target = (target', l, Raise e) →
  l ≠ [] ∧ last l ≠ Some Sync_ended ∧ (Process_stopping ∉ l) ∧
  ∀ later, turns outside (sources ++ later) target = (target', l, Raise e).
Proof.
  revert target target' l.
  induction sources as [|source sources IH]; intros target target' l; [done|].
  cbn [turns app]. unfold turn.
  destruct (dirSync outside source target) as [[t1 l1] [[]|e1]].
  - destruct (turns outside sources t1) as [[t2 l2] o2] eqn:Ht.
    intros [= -> <- ->]. destruct (IH _ _ _ Ht) as (Hne & Hlast & Hstop & Hlater).
    split_and!.
    + by destruct l2.
    + change (last ((Sync_starting :: (Pass <$> l1) ++ [Sync_ended]) ++ l2)
              ≠ Some Sync_ended).
      rewrite last_app. destruct (last l2) eqn:E; [done|by apply last_None in E].
    + clear -Hstop. set_solver.
    + intros later. by rewrite Hlater.
  - intros [= -> <- ->]. rewrite app_nil_r. split_and!; try done.
    + cbn [app]. rewrite last_cons, fmap_last. by destruct (last l1).
    + clear. set_solver.
Qed.

(** X19.  An exception that leaves a pass leaves [main]: no later turn
    runs, whatever the source holds by then, the last record of the log is
    not "Sync ended", and the stop of the process is not logged. *)
Theorem main_ends_at_first_exception {order : SetOrder} (outside : world)
    (sources later : list entry) (replica replica' : entry) (l : list record)
    (e : exn) :
  main outside sources replica = (replica', l, Raise e) →
  main outside (sources ++ later) replica = (replica', l, Raise e) ∧
  last l ≠ Some Sync_ended ∧
  (Process_stopping ∉ l).
Proof.
  unfold main.
  destruct (turns outside sources replica) as [[t1 l1] [[]|e1]] eqn:Ht; [done|].
  intros [= -> <- ->].
  destruct (turns_raised _ _ _ _ _ _ Ht) as (Hne & Hlast & Hstop & ->).
  rewrite app_nil_r. split_and!; [done| |].
  - cbn [app]. rewrite last_cons. by destruct (last l1).
  - clear -Hstop. set_solver.
Qed.

Lemma main_ends_at_first_exception_witness :
  main nowhere [Some (Dir blocked_source)] (Some (Dir blocked_replica)) =
    (Some (Dir (<["z" := file "z"]> blocked_replica)),
     [Process_starting; Sync_starting; Pass (Done Created ["z"]);
      Pass (Failed DirCreated ["x"] FileExistsError)],
     Raise NotADirectoryError) ∧
  main nowhere ([Some (Dir blocked_source)] ++ [Some (Dir ∅)])
    (Some (Dir blocked_replica)) =
    (Some (Dir (<["z" := file "z"]> blocked_replica)),
     [Process_starting; Sync_starting; Pass (Done Created ["z"]);
      Pass (Failed DirCreated ["x"] FileExistsError)],
     Raise NotADirectoryError) ∧
  last [Process_starting; Sync_starting; Pass (Done Created ["z"]);
        Pass (Failed DirCreated ["x"] FileExistsError)] ≠ Some Sync_ended ∧
  (Process_stopping ∉
    [Process_starting; Sync_starting; Pass (Done Created ["z"]);
     Pass (Failed DirCreated ["x"] FileExistsError)]).
Proof.
  assert (H : main nowhere [Some (Dir blocked_source)] (Some (Dir blocked_replica)) =
    (Some (Dir (<["z" := file "z"]> blocked_replica)),
     [Process_starting; Sync_starting; Pass (Done Created ["z"]);
      Pass (Failed DirCreated ["x"] FileExistsError)],
     Raise NotADirectoryError)).
  { vm_compute. reflexivity. }
  split; [exact H|].
  exact (main_ends_at_first_exception nowhere _ [Some (Dir ∅)] _ _ _ _ H).
Defined.
